(** * DMHY Title Filter: a shallow embedding of [DMHY-Title-Filter.user.js]

    The development follows the user script: the module-level converter
    cache and [initConverters], then [filterTitles] with its two callbacks
    (the per-row callback and the per-group callback given to [every]).

    JavaScript strings are sequences of UTF-16 code units; the table body
    is the ordered list of its rows; exceptions and the mutable page are
    threaded through a small state-and-exception monad. The host's
    built-ins that the script only calls ([String.prototype.toLowerCase],
    the [RegExp] engine, [OpenCC.Converter]) are the fields of the
    [Host] interface. *)

From Stdlib Require Import List NArith ZArith Bool Arith Lia String Ascii.
Import ListNotations.

(** ** Strings *)

(** A JavaScript string: its UTF-16 code units. *)
Definition jsstring := list N.

(** An ASCII literal as a JavaScript string. *)
Definition js (s : string) : jsstring :=
  map N_of_ascii (list_ascii_of_string s).

Module Ch.
Definition slash : N := 47.        (* '/' *)
Definition pipe : N := 124.        (* '|' *)
Definition semicolon : N := 59.    (* ';' *)
Definition fullwidth_semicolon : N := 65307.  (* U+FF1B *)
End Ch.

(** ECMAScript WhiteSpace and LineTerminator code points, the ones
    [String.prototype.trim] strips. *)
Definition isWhiteSpace (c : N) : bool :=
  ((9 <=? c) && (c <=? 13) || (c =? 32) || (c =? 160) || (c =? 5760)
   || (8192 <=? c) && (c <=? 8202) || (c =? 8232) || (c =? 8233)
   || (c =? 8239) || (c =? 8287) || (c =? 12288) || (c =? 65279))%N.

Fixpoint trimStart (s : jsstring) : jsstring :=
  match s with
  | [] => []
  | c :: r => if isWhiteSpace c then trimStart r else s
  end.

Definition trimEnd (s : jsstring) : jsstring := rev (trimStart (rev s)).

(** [s.trim()] *)
Definition trim (s : jsstring) : jsstring := trimEnd (trimStart s).

(** Truthiness of a string: [Boolean(s)], [!s] is its negation. *)
Definition truthy (s : jsstring) : bool :=
  match s with [] => false | _ :: _ => true end.

(** [s.split(sep)] for a separator that matches exactly one code unit
    satisfying [sep]: both the class of the two semicolons and ['|'] are
    of that kind. The result
    always has at least one element ([''.split(..)] is [['']]). *)
Fixpoint split (sep : N -> bool) (s : jsstring) : list jsstring :=
  match s with
  | [] => [[]]
  | c :: r =>
      if sep c then [] :: split sep r
      else match split sep r with
           | [] => [[c]]
           | h :: t => (c :: h) :: t
           end
  end.

(** The character class of the regex the rule is split on: the ASCII
    semicolon and the full-width semicolon U+FF1B. *)
Definition isAndSeparator (c : N) : bool :=
  ((c =? Ch.semicolon) || (c =? Ch.fullwidth_semicolon))%N.

Definition isPipe (c : N) : bool := (c =? Ch.pipe)%N.

(** [s.startsWith(p)] *)
Fixpoint startsWith (s p : jsstring) : bool :=
  match p, s with
  | [], _ => true
  | _ :: _, [] => false
  | a :: p', b :: s' => (a =? b)%N && startsWith s' p'
  end.

(** [s.endsWith(p)] *)
Definition endsWith (s p : jsstring) : bool := startsWith (rev s) (rev p).

(** [s.includes(x)] *)
Fixpoint includes (s x : jsstring) : bool :=
  startsWith s x ||
  match s with
  | [] => false
  | _ :: r => includes r x
  end.

(** [s.slice(b, e)] with the relative-index rule for negative arguments. *)
Definition slice (s : jsstring) (b e : Z) : jsstring :=
  let len := Z.of_nat (List.length s) in
  let from := if (b <? 0)%Z then Z.max (len + b) 0 else Z.min b len in
  let to := if (e <? 0)%Z then Z.max (len + e) 0 else Z.min e len in
  firstn (Z.to_nat (to - from)) (skipn (Z.to_nat from) s).

(** [parts.join(sep)] *)
Fixpoint join (sep : jsstring) (parts : list jsstring) : jsstring :=
  match parts with
  | [] => []
  | x :: rest =>
      match rest with
      | [] => x
      | _ :: _ => x ++ sep ++ join sep rest
      end
  end.

(** ** The host *)

(** What a call can throw. [HostError] stands for whatever value the
    conversion library throws. *)
Inductive exn : Type :=
| TypeError
| NotFoundError
| HostError (code : N).

(** The locales [OpenCC.Converter] is configured with. *)
Inductive Locale : Type := cn | tw | twp | hk | jp.

(** The built-ins the script calls.
    - [toLowerCase s] is [s.toLowerCase()];
    - [RegExp pattern flags] is [new RegExp(pattern, flags)]: [None] when
      the constructor throws a SyntaxError, otherwise the [test] method of
      the regex (stateless, as the script never sets the [g] or [y] flag);
    - [OpenCC_Converter from to] is the function returned by
      [OpenCC.Converter({from, to})], which may throw on a given text. *)
Class Host : Type := {
  toLowerCase : jsstring -> jsstring;
  RegExp : jsstring -> jsstring -> option (jsstring -> bool);
  OpenCC_Converter : Locale -> Locale -> jsstring -> exn + jsstring
}.

(** ** The page *)

(** A row of the listing: an opaque handle (the identity of the [tr]
    element), the text content of its [.title] cell and its
    [style.display]. *)
Record Row : Type := {
  handle : nat;
  title : jsstring;
  display : jsstring
}.

(** An instance returned by [OpenCC.Converter]: its identity and the
    configuration it was built with. *)
Record Converter : Type := {
  conv_id : nat;
  conv_from : Locale;
  conv_to : Locale
}.

(** The module-level cache [converters]; [None] is [null]. *)
Record Converters : Type := {
  toTraditional : option Converter;
  toSimplified : option Converter
}.

(** The mutable world of the script: the children of the table's [tbody]
    in document order, the converter cache, the number of
    [OpenCC.Converter] constructions performed so far, and what was sent
    to [console.warn]. The table is the site's listing: one [tbody] whose
    children are its [tr] rows, each with a [.title] cell, so that
    [table.querySelectorAll('tbody tr')] and [tbody.children] are the same
    rows. *)
Record Page : Type := {
  tbody : list Row;
  converters : Converters;
  constructed : nat;
  console : list jsstring
}.

Definition set_display (d : jsstring) (r : Row) : Row :=
  {| handle := handle r; title := title r; display := d |}.

Definition with_tbody (l : list Row) (p : Page) : Page :=
  {| tbody := l; converters := converters p;
     constructed := constructed p; console := console p |}.

Definition with_converters (c : Converters) (p : Page) : Page :=
  {| tbody := tbody p; converters := c;
     constructed := constructed p; console := console p |}.

Definition with_constructed (n : nat) (p : Page) : Page :=
  {| tbody := tbody p; converters := converters p;
     constructed := n; console := console p |}.

Definition with_console (l : list jsstring) (p : Page) : Page :=
  {| tbody := tbody p; converters := converters p;
     constructed := constructed p; console := l |}.

(** The cache when the script is loaded: two nulls. *)
Definition emptyCache : Converters :=
  {| toTraditional := None; toSimplified := None |}.

(** The page when the script is loaded. *)
Definition initial_page (rows : list Row) : Page :=
  {| tbody := rows;
     converters := emptyCache;
     constructed := 0; console := [] |}.

(** ** State and exceptions *)

(** A computation over the page that returns a value or throws; the page
    reached so far survives a throw. *)
Definition M (A : Type) : Type := Page -> Page * (exn + A).

Definition ret {A} (a : A) : M A := fun p => (p, inr a).

Definition throw {A} (e : exn) : M A := fun p => (p, inl e).

Definition bind {A B} (m : M A) (k : A -> M B) : M B :=
  fun p =>
    match m p with
    | (p', inr a) => k a p'
    | (p', inl e) => (p', inl e)
    end.

Definition get : M Page := fun p => (p, inr p).

Definition modify (f : Page -> Page) : M unit := fun p => (f p, inr tt).

Declare Scope js_scope.
Delimit Scope js_scope with js_m.
Notation "x <- m ;; k" := (bind m (fun x => k))
  (at level 100, m at next level, right associativity) : js_scope.
Notation "m ;;; k" := (bind m (fun _ => k))
  (at level 100, right associativity) : js_scope.
Open Scope js_scope.

(** [l.forEach(f)] *)
Fixpoint forEach {A} (f : A -> M unit) (l : list A) : M unit :=
  match l with
  | [] => ret tt
  | x :: xs => f x ;;; forEach f xs
  end.

(** [l.every(f)]: stops at the first element for which [f] is false. *)
Fixpoint every {A} (f : A -> M bool) (l : list A) : M bool :=
  match l with
  | [] => ret true
  | x :: xs => b <- f x ;; if b then every f xs else ret false
  end.

(** [l.flatMap(f)] *)
Fixpoint flatMap {A B} (f : A -> M (list B)) (l : list A) : M (list B) :=
  match l with
  | [] => ret []
  | x :: xs => ys <- f x ;; zs <- flatMap f xs ;; ret (ys ++ zs)
  end.

(** [l.some(f)] for a callback without effects. *)
Definition some {A} (f : A -> bool) (l : list A) : bool := existsb f l.

(** ** What a computation leaves untouched *)

(** [m] does not change the component [f] of the page, whether it returns
    or throws. *)
Definition preserves {X A} (f : Page -> X) (m : M A) : Prop :=
  forall p, f (fst (m p)) = f p.

(** Components of the page that do not see the console, the table body,
    the converter cache. *)
Definition console_blind {X} (f : Page -> X) : Prop :=
  forall l p, f (with_console l p) = f p.

Definition tbody_blind {X} (f : Page -> X) : Prop :=
  forall l p, f (with_tbody l p) = f p.

Definition cache_blind {X} (f : Page -> X) : Prop :=
  (forall c p, f (with_converters c p) = f p)
  /\ (forall n p, f (with_constructed n p) = f p).

(** ** The script *)

Section Script.

Context {host : Host}.

(** [OpenCC.Converter({ from, to })]: a fresh instance. *)
Definition newConverter (from to : Locale) : M Converter :=
  fun p =>
    (with_constructed (S (constructed p)) p,
     inr {| conv_id := constructed p; conv_from := from; conv_to := to |}).

Definition set_toTraditional (c : Converter) : M unit :=
  modify (fun p =>
    with_converters {| toTraditional := Some c;
                       toSimplified := toSimplified (converters p) |} p).

Definition set_toSimplified (c : Converter) : M unit :=
  modify (fun p =>
    with_converters {| toTraditional := toTraditional (converters p);
                       toSimplified := Some c |} p).

Definition is_null {A} (o : option A) : bool :=
  match o with None => true | Some _ => false end.

(** [function initConverters()] *)
Definition initConverters : M unit :=
  p <- get ;;
  if is_null (toTraditional (converters p))
     || is_null (toSimplified (converters p))
  then
    a <- newConverter cn twp ;;
    set_toTraditional a ;;;
    b <- newConverter tw cn ;;
    set_toSimplified b
  else ret tt.

(** [converters.toTraditional(s)] and [converters.toSimplified(s)]: the
    call of the cached instance; calling [null] is a TypeError. *)
Definition call (field : Converters -> option Converter) (s : jsstring)
  : M jsstring :=
  p <- get ;;
  match field (converters p) with
  | None => throw TypeError
  | Some c =>
      match OpenCC_Converter (conv_from c) (conv_to c) s with
      | inl e => throw e
      | inr r => ret r
      end
  end.

(** The array literal both callbacks build:
    [[s.toLowerCase(), converters.toTraditional(s).toLowerCase(),
      converters.toSimplified(s).toLowerCase()]]. *)
Definition variantsOf (s : jsstring) : M (list jsstring) :=
  a <- call toTraditional s ;;
  b <- call toSimplified s ;;
  ret [toLowerCase s; toLowerCase a; toLowerCase b].

(** [console.warn('Invalid regex:', group)] *)
Definition console_warn (g : jsstring) : M unit :=
  modify (fun p => with_console (console p ++ [g]) p).

(** The test of line 108:
    [group.startsWith('/') && group.endsWith('/') && group.length > 2]. *)
Definition isRegexGroup (group : jsstring) : bool :=
  startsWith group [Ch.slash] && endsWith group [Ch.slash]
  && (2 <? List.length group).

(** [group.split('|').map(term => term.trim()).filter(Boolean)] *)
Definition termsOf (group : jsstring) : list jsstring :=
  filter truthy (map trim (split isPipe group)).

(** The callback given to [filterGroups.every]. *)
Definition matchesGroup (titleVariants : list jsstring) (group : jsstring)
  : M bool :=
  if isRegexGroup group then
    match RegExp (slice group 1 (-1)) (js "i") with
    | Some regex_test =>
        ret (some (fun variant => regex_test variant) titleVariants)
    | None =>
        console_warn group ;;;
        ret (some (fun variant => includes variant (toLowerCase group))
               titleVariants)
    end
  else
    let terms := termsOf group in
    termVariants <- flatMap variantsOf terms ;;
    ret (some (fun titleVariant =>
                 some (fun termVariant => includes titleVariant termVariant)
                   termVariants)
           titleVariants).

Definition shown : jsstring := [].
Definition hidden : jsstring := js "none".

(** The callback of the second [rows.forEach], up to the assignment of
    [row.style.display]; it returns the row as it is appended to the
    fragment. *)
Definition processRow (filterGroups : list jsstring) (row : Row) : M Row :=
  titleVariants <- variantsOf (title row) ;;
  matchesAllGroups <- every (matchesGroup titleVariants) filterGroups ;;
  ret (set_display (if matchesAllGroups then shown else hidden) row).

(** The second [rows.forEach]: [fragment] is the document fragment the
    processed rows are appended to. *)
Fixpoint processRows (filterGroups : list jsstring) (rows fragment : list Row)
  : M (list Row) :=
  match rows with
  | [] => ret fragment
  | row :: rest =>
      row' <- processRow filterGroups row ;;
      processRows filterGroups rest (fragment ++ [row'])
  end.

(** Removal of the first child with the given identity. *)
Fixpoint remove_child (h : nat) (children : list Row) : option (list Row) :=
  match children with
  | [] => None
  | r :: rest =>
      if handle r =? h then Some rest
      else option_map (cons r) (remove_child h rest)
  end.

(** [tbody.removeChild(row)]: a NotFoundError when [row] is not a child. *)
Definition removeChild (row : Row) : M unit :=
  p <- get ;;
  match remove_child (handle row) (tbody p) with
  | None => throw NotFoundError
  | Some children => modify (with_tbody children)
  end.

(** [tbody.appendChild(fragment)]: the children of the fragment move to
    the end of the body. *)
Definition appendFragment (fragment : list Row) : M unit :=
  modify (fun p => with_tbody (tbody p ++ fragment) p).

(** [keywords.split(/[;...]/).map(group => group.trim()).filter(Boolean)] *)
Definition filterGroupsOf (keywords : jsstring) : list jsstring :=
  filter truthy (map trim (split isAndSeparator keywords)).

(** The body of [filterTitles] from line 81 on: the rows are detached,
    processed into the fragment, and the fragment is appended. *)
Definition filterRows (keywords : jsstring) : M unit :=
  let filterGroups := filterGroupsOf keywords in
  p <- get ;;
  let rows := tbody p in
  (forEach removeChild rows ;;;
   fragment <- processRows filterGroups rows [] ;;
   appendFragment fragment).

(** [function filterTitles(keywords, table)]; the table is the page's. *)
Definition filterTitles (keywords : jsstring) : M unit :=
  if negb (truthy keywords) || negb (truthy (trim keywords)) then
    modify (fun p => with_tbody (map (set_display shown) (tbody p)) p)
  else
    initConverters ;;;
    filterRows keywords.

(** ** Observations *)

(** Whether a row is displayed. *)
Definition visible (r : Row) : bool := negb (truthy (display r)).

(** The result of a pass as the collaborator reads it: for each row of
    the body, in document order, its handle and whether it is shown. *)
Definition filterAll (keywords : jsstring) (p : Page)
  : exn + list (nat * bool) :=
  match filterTitles keywords p with
  | (p', inr _) => inr (map (fun r => (handle r, visible r)) (tbody p'))
  | (_, inl e) => inl e
  end.

(** The cache holds nothing that [initConverters] did not put there: when
    both fields are set, they are the two directions it constructs. *)
Definition cache_ok (c : Converters) : Prop :=
  forall a b,
    toTraditional c = Some a -> toSimplified c = Some b ->
    (conv_from a = cn /\ conv_to a = twp) /\ (conv_from b = tw /\ conv_to b = cn).

(** Both directions are cached. *)
Definition initialized (c : Converters) : Prop :=
  exists a b,
    toTraditional c = Some a /\ toSimplified c = Some b
    /\ (conv_from a = cn /\ conv_to a = twp)
    /\ (conv_from b = tw /\ conv_to b = cn).

(** The candidates of a page: the handles and titles of its rows, in
    document order. *)
Definition candidates (p : Page) : list (nat * jsstring) :=
  map (fun r => (handle r, title r)) (tbody p).

(** The cache as the first [initConverters] of the process fills it. *)
Definition firstInstances : Converters :=
  {| toTraditional := Some {| conv_id := 0; conv_from := cn; conv_to := twp |};
     toSimplified := Some {| conv_id := 1; conv_from := tw; conv_to := cn |} |}.

(** What the script does between two states of the page. *)
Inductive Call : Type :=
| CallInitConverters
| CallFilterTitles (keywords : jsstring).

Definition perform (c : Call) (p : Page) : Page :=
  match c with
  | CallInitConverters => fst (initConverters p)
  | CallFilterTitles keywords => fst (filterTitles keywords p)
  end.

Definition performAll (cs : list Call) (p : Page) : Page :=
  fold_left (fun q c => perform c q) cs p.

End Script.

(** ** The value of the callbacks under a pure capability *)

Section Decisions.

Context {host : Host}.

(** The two directions as functions on text. *)
Variables toVariantA toVariantB : jsstring -> jsstring.

(** The three lowercased forms of a text: original, variant A (what
    [converters.toTraditional] returns), variant B (what
    [converters.toSimplified] returns). *)
Definition variantForms (s : jsstring) : list jsstring :=
  [toLowerCase s; toLowerCase (toVariantA s); toLowerCase (toVariantB s)].

(** The value [matchesGroup] returns on a group that is not a regex. *)
Definition plainHolds (titleVariants : list jsstring) (group : jsstring)
  : bool :=
  some (fun titleVariant =>
          some (fun termVariant => includes titleVariant termVariant)
            (flat_map variantForms (termsOf group)))
    titleVariants.

(** The value [matchesGroup] returns. *)
Definition groupHolds (titleVariants : list jsstring) (group : jsstring)
  : bool :=
  if isRegexGroup group then
    match RegExp (slice group 1 (-1)) (js "i") with
    | Some regex_test => some regex_test titleVariants
    | None =>
        some (fun variant => includes variant (toLowerCase group))
          titleVariants
    end
  else plainHolds titleVariants group.

(** The row as the per-row callback leaves it. *)
Definition rowAfter (filterGroups : list jsstring) (r : Row) : Row :=
  set_display
    (if forallb (groupHolds (variantForms (title r))) filterGroups
     then shown else hidden) r.

(** The row as a pass with the rule [keywords] leaves it. *)
Definition decide (keywords : jsstring) (r : Row) : Row :=
  rowAfter (filterGroupsOf keywords) r.

End Decisions.

(** The pointwise conjunction of two results over the same rows. *)
Definition both (l1 l2 : list (nat * bool)) : list (nat * bool) :=
  map (fun x => (fst (fst x), snd (fst x) && snd (snd x))) (combine l1 l2).

(** ** Stand-ins for the host *)

Module StandIn.

(** Lowercasing of the ASCII letters; the other code units used below
    (digits, punctuation, CJK ideographs) have no case. *)
Definition lowerUnit (c : N) : N :=
  if ((65 <=? c) && (c <=? 90))%N then (c + 32)%N else c.

Definition lower (s : jsstring) : jsstring := map lowerUnit s.

(** The syntax characters of a regex pattern. *)
Definition isSyntaxCharacter (c : N) : bool :=
  existsb (N.eqb c) (js "\^$.|?*+()[]{}").

(** A regex engine for the patterns used below: a pattern without syntax
    characters searches its text literally, ignoring case; any other
    pattern is refused, as the host refuses the unterminated class
    [[abc]. *)
Definition literalRegExp (pattern flags : jsstring)
  : option (jsstring -> bool) :=
  if existsb isSyntaxCharacter pattern then None
  else Some (fun s => includes (lower s) (lower pattern)).

(** Code units of the ideographs in the examples. *)
Definition jian_s : N := 31616.   (* U+7B80, simplified *)
Definition jian_t : N := 31777.   (* U+7C21, traditional *)
Definition ti_s : N := 20307.     (* U+4F53, simplified *)
Definition ti_t : N := 39636.     (* U+9AD4, traditional *)
Definition fan : N := 32321.      (* U+7E41, same in both scripts *)
Definition zi : N := 23383.       (* U+5B57 *)
Definition mu : N := 24149.       (* U+5E55 *)

Definition toTraditionalUnit (c : N) : N :=
  if (c =? jian_s)%N then jian_t else if (c =? ti_s)%N then ti_t else c.

Definition toSimplifiedUnit (c : N) : N :=
  if (c =? jian_t)%N then jian_s else if (c =? ti_t)%N then ti_s else c.

(** The two directions on the ideographs above. *)
Definition convertA (s : jsstring) : jsstring := map toTraditionalUnit s.
Definition convertB (s : jsstring) : jsstring := map toSimplifiedUnit s.

Definition convert (from to : Locale) (s : jsstring) : jsstring :=
  match from, to with
  | cn, twp => convertA s
  | tw, cn => convertB s
  | _, _ => s
  end.

(** A host whose conversion never fails. *)
Definition pureHost : Host :=
  {| toLowerCase := lower;
     RegExp := literalRegExp;
     OpenCC_Converter := fun from to s => inr (convert from to s) |}.

(** A lone surrogate, on which the failing host's conversion throws. *)
Definition surrogate : N := 55296.

(** A host whose conversion throws on a text with a lone surrogate. *)
Definition failingHost : Host :=
  {| toLowerCase := lower;
     RegExp := literalRegExp;
     OpenCC_Converter := fun from to s =>
       if existsb (N.eqb surrogate) s then inl (HostError 1)
       else inr (convert from to s) |}.

Definition row (h : nat) (t : jsstring) : Row :=
  {| handle := h; title := t; display := [] |}.

(** Three rows: a title with the word for the simplified script written
    in it, one with the word for the traditional script written in it, and
    one with a bracket. *)
Definition firstRow : Row :=
  row 1 (js "[" ++ [jian_s; ti_s; zi; mu] ++ js "] Show HEVC 01").
Definition secondRow : Row :=
  row 2 (js "[" ++ [fan; ti_t; zi; mu] ++ js "] Show x265 01").
Definition thirdRow : Row := row 3 (js "Other x[abcx 720p").

Definition listing : list Row := [firstRow; secondRow; thirdRow].

(** The page of the listing once both directions are cached. *)
Definition ready : Page :=
  with_converters firstInstances (with_constructed 2 (initial_page listing)).

(** The same candidates, all hidden by an earlier pass. *)
Definition readyHidden : Page :=
  with_tbody (map (set_display hidden) listing) ready.

(** The listing followed by a row on whose title the failing host's
    conversion throws. *)
Definition brokenListing : list Row := listing ++ [row 4 [surrogate]].

End StandIn.

(** ** How a pass leaves the rows *)

Section Failures.

(** The rows have the handles and titles of [rows'], in their order, and
    each is shown or hidden. *)
Definition same_rows (rows rows' : list Row) : Prop :=
  map handle rows = map handle rows'
  /\ map title rows = map title rows'
  /\ Forall (fun r => display r = shown \/ display r = hidden) rows.

End Failures.

(** ** The filter box *)

Section FilterBox.

Context {host : Host}.

(** What the replacement does to one code unit. *)
Definition replaceSemicolon (c : N) : N :=
  if (c =? Ch.semicolon)%N then Ch.fullwidth_semicolon else c.

(** [value.replace(/;/g, ...)] with the full-width semicolon as the
    replacement: every ASCII semicolon is replaced. *)
Definition replaceSemicolons (value : jsstring) : jsstring :=
  map replaceSemicolon value.

(** The filter box that [setupUI] adds, with the timers of its listener:
    the page, [input.value], the variable [debounceTimer] ([None] is
    [undefined]), the timers that were set and have neither elapsed nor
    been cleared, and the identifier the next [setTimeout] returns. Time
    is the order of the events. *)
Record UI : Type := {
  page : Page;
  input_value : jsstring;
  debounceTimer : option nat;
  timers : list nat;
  next_timer : nat
}.

Definition initial_ui (p : Page) : UI :=
  {| page := p; input_value := []; debounceTimer := None;
     timers := []; next_timer := 1 |}.

(** [clearTimeout(id)]: nothing happens for [undefined] or for a timer
    that is not pending. *)
Definition clearTimeout (id : option nat) (ui : UI) : UI :=
  match id with
  | None => ui
  | Some n =>
      {| page := page ui; input_value := input_value ui;
         debounceTimer := debounceTimer ui;
         timers := filter (fun m => negb (m =? n)) (timers ui);
         next_timer := next_timer ui |}
  end.

(** [debounceTimer = setTimeout(callback, 300)]: a fresh timer, whose
    identifier is assigned to the variable. The callback is the same for
    every timer of the listener, so that it is not stored. *)
Definition setDebounceTimer (ui : UI) : UI :=
  {| page := page ui; input_value := input_value ui;
     debounceTimer := Some (next_timer ui);
     timers := timers ui ++ [next_timer ui];
     next_timer := S (next_timer ui) |}.

(** The listener of the box's [input] event. *)
Definition onInput (ui : UI) : UI :=
  setDebounceTimer (clearTimeout (debounceTimer ui) ui).

(** The callback of the timer. The box is the target of the event, so
    that [e.target.value] is the text of the box when the timer elapses.
    An exception of [filterTitles] is not caught: the page it leaves
    stays. *)
Definition onTimeout (ui : UI) : UI :=
  let value := input_value ui in
  let normalizedValue := replaceSemicolons value in
  let shownValue :=
    if list_eq_dec N.eq_dec value normalizedValue then value
    else normalizedValue in
  {| page := fst (filterTitles value (page ui));
     input_value := shownValue;
     debounceTimer := debounceTimer ui;
     timers := timers ui;
     next_timer := next_timer ui |}.

(** What happens to the box: the user edits its text to [v], which
    dispatches an [input] event, or the delay of the timer [id] is over. *)
Inductive Event : Type :=
| Edit (v : jsstring)
| Elapse (id : nat).

Definition set_input_value (v : jsstring) (ui : UI) : UI :=
  {| page := page ui; input_value := v; debounceTimer := debounceTimer ui;
     timers := timers ui; next_timer := next_timer ui |}.

Definition step (ui : UI) (ev : Event) : UI :=
  match ev with
  | Edit v => onInput (set_input_value v ui)
  | Elapse id =>
      if existsb (Nat.eqb id) (timers ui) then
        onTimeout
          {| page := page ui; input_value := input_value ui;
             debounceTimer := debounceTimer ui;
             timers := filter (fun m => negb (m =? id)) (timers ui);
             next_timer := next_timer ui |}
      else ui
  end.

Definition run (evs : list Event) (ui : UI) : UI := fold_left step evs ui.

(** At most one timer waits, and it is the one the variable holds. *)
Definition one_timer (ui : UI) : Prop :=
  timers ui = []
  \/ exists id, timers ui = [id] /\ debounceTimer ui = Some id.

End FilterBox.

(** * Properties *)

(** ** Strings *)

Section StringFacts.

Lemma trimStart_nil (s : jsstring) :
  trimStart s = [] <-> forallb isWhiteSpace s = true.
Proof.
  induction s as [|c r IH]; simpl.
  - tauto.
  - destruct (isWhiteSpace c); simpl.
    + exact IH.
    + split; discriminate.
Qed.

Lemma trimStart_all (s : jsstring) :
  forallb isWhiteSpace s = true -> trimStart s = [].
Proof. apply trimStart_nil. Qed.

Lemma trimStart_head (s : jsstring) (c : N) (r : jsstring) :
  trimStart s = c :: r -> isWhiteSpace c = false.
Proof.
  induction s as [|d q IH]; simpl; [discriminate|].
  destruct (isWhiteSpace d) eqn:Hd; [exact IH|].
  intros E; injection E as -> _. exact Hd.
Qed.

Lemma trimStart_app_keep (a b : jsstring) (c : N) :
  isWhiteSpace c = false -> trimStart (a ++ c :: b) <> [].
Proof.
  intros Hc; induction a as [|d q IH]; simpl.
  - rewrite Hc; discriminate.
  - destruct (isWhiteSpace d); [exact IH | discriminate].
Qed.

Lemma trim_all (s : jsstring) :
  forallb isWhiteSpace s = true -> trim s = [].
Proof.
  intros H. unfold trim, trimEnd. rewrite (trimStart_all _ H). reflexivity.
Qed.

Lemma trim_nil (s : jsstring) :
  trim s = [] -> forallb isWhiteSpace s = true.
Proof.
  unfold trim, trimEnd. intros H.
  destruct (trimStart s) as [|c r] eqn:E.
  - apply trimStart_nil; exact E.
  - exfalso. apply trimStart_head in E.
    apply (f_equal (@rev N)) in H. rewrite rev_involutive in H. simpl in H.
    revert H. apply trimStart_app_keep. exact E.
Qed.

Lemma trim_cons_keep (c : N) (s : jsstring) :
  isWhiteSpace c = false -> trim (c :: s) <> [].
Proof.
  intros Hc H. apply trim_nil in H. simpl in H. rewrite Hc in H. discriminate.
Qed.

Lemma truthy_false (s : jsstring) : truthy s = false <-> s = [].
Proof. destruct s; simpl; split; congruence. Qed.

Lemma truthy_trim (s : jsstring) : truthy (trim s) = true -> truthy s = true.
Proof. destruct s; [discriminate | reflexivity]. Qed.

Lemma split_not_nil (sep : N -> bool) (s : jsstring) : split sep s <> [].
Proof.
  destruct s as [|c r]; simpl; [discriminate|].
  destruct (sep c); [discriminate|]. destruct (split sep r); discriminate.
Qed.

Lemma split_cons_keep (sep : N -> bool) (c : N) (r : jsstring) :
  sep c = false ->
  exists h t, split sep (c :: r) = (c :: h) :: t.
Proof.
  intros Hc. simpl. rewrite Hc.
  destruct (split sep r) as [|h t]; eauto.
Qed.

(** Splitting distributes over a separator. *)
Lemma split_app (sep : N -> bool) (a b : jsstring) (c : N) :
  sep c = true -> split sep (a ++ c :: b) = split sep a ++ split sep b.
Proof.
  intros Hc. induction a as [|d q IH]; simpl.
  - rewrite Hc. reflexivity.
  - destruct (sep d); rewrite IH; [reflexivity|].
    destruct (split sep q) as [|h t] eqn:E; [|reflexivity].
    exfalso; exact (split_not_nil _ _ E).
Qed.

(** The pieces of a text made of separators and [P]-units are made of
    [P]-units. *)
Lemma split_pieces (sep P : N -> bool) (s : jsstring) :
  forallb (fun c => sep c || P c) s = true ->
  Forall (fun piece => forallb P piece = true) (split sep s).
Proof.
  induction s as [|c r IH]; simpl; intros H.
  - constructor; [reflexivity | constructor].
  - apply andb_true_iff in H as [Hc Hr]. specialize (IH Hr).
    destruct (sep c) eqn:Sc.
    + constructor; [reflexivity | exact IH].
    + simpl in Hc. destruct (split sep r) as [|h t].
      * constructor; [simpl; rewrite Hc; reflexivity | constructor].
      * inversion IH; subst. constructor; [simpl; rewrite Hc; assumption | assumption].
Qed.

Lemma startsWith_nil (s : jsstring) : startsWith s [] = true.
Proof. destruct s; reflexivity. Qed.

Lemma startsWith_slash (g : jsstring) :
  startsWith g [Ch.slash] = true -> exists r, g = Ch.slash :: r.
Proof.
  destruct g as [|c r]; [discriminate|]. intros H.
  change ((Ch.slash =? c)%N && startsWith r [] = true) in H.
  apply andb_true_iff in H as [H _].
  apply N.eqb_eq in H. subst c. eauto.
Qed.

(** The shape of a regex group: two slashes around a non-empty body. *)
Lemma isRegexGroup_shape (g : jsstring) :
  isRegexGroup g = true <->
  exists body, body <> [] /\ g = Ch.slash :: body ++ [Ch.slash].
Proof.
  unfold isRegexGroup, endsWith. split.
  - intros H. apply andb_true_iff in H as [H L].
    apply andb_true_iff in H as [S E].
    apply startsWith_slash in S as [r ->].
    apply startsWith_slash in E as [q E].
    apply (f_equal (@rev N)) in E. rewrite rev_involutive in E. simpl in E.
    apply Nat.ltb_lt in L. simpl in L.
    destruct (rev q) as [|c q'] eqn:Q.
    + simpl in E. injection E as ->. simpl in L. lia.
    + simpl in E. injection E as _ ->.
      destruct q' as [|d q''] using rev_ind.
      * simpl in L. lia.
      * exists (q'' ++ [d]). split; [destruct q''; discriminate|].
        clear. rewrite <- app_assoc. reflexivity.
  - intros [body [Hb ->]].
    assert (L : (2 <? List.length (Ch.slash :: body ++ [Ch.slash])) = true).
    { apply Nat.ltb_lt. simpl. rewrite length_app. simpl.
      destruct body; [congruence | simpl; lia]. }
    rewrite L. simpl rev. rewrite rev_app_distr. simpl.
    rewrite !startsWith_nil. reflexivity.
Qed.


Lemma filterGroupsOf_app (a b : jsstring) (c : N) :
  isAndSeparator c = true ->
  filterGroupsOf (a ++ c :: b) = filterGroupsOf a ++ filterGroupsOf b.
Proof.
  intros Hc. unfold filterGroupsOf.
  rewrite (split_app _ _ _ _ Hc), map_app, filter_app. reflexivity.
Qed.

(** A rule made of separators and white space has no group. *)
Lemma filterGroupsOf_blank (keywords : jsstring) :
  forallb (fun c => isAndSeparator c || isWhiteSpace c) keywords = true ->
  filterGroupsOf keywords = [].
Proof.
  intros H. apply split_pieces in H. unfold filterGroupsOf.
  induction H as [|piece l Hp _ IH]; simpl; [reflexivity|].
  rewrite (trim_all _ Hp). exact IH.
Qed.

Lemma filterGroupsOf_trim_nil (keywords : jsstring) :
  trim keywords = [] -> filterGroupsOf keywords = [].
Proof.
  intros H. apply trim_nil in H. apply filterGroupsOf_blank.
  rewrite forallb_forall in *. intros c Hc. rewrite (H c Hc). apply orb_true_r.
Qed.

(** A regex group has at least one term when read as a plain group: its
    first piece starts with the slash. *)
Lemma termsOf_regex (g : jsstring) :
  isRegexGroup g = true -> termsOf g <> [].
Proof.
  intros H. apply isRegexGroup_shape in H as [body [_ ->]].
  unfold termsOf.
  destruct (split_cons_keep isPipe Ch.slash (body ++ [Ch.slash]) eq_refl)
    as [h [t E]].
  rewrite E. simpl map. simpl filter.
  destruct (trim (Ch.slash :: h)) eqn:T0.
  - exfalso. revert T0. apply trim_cons_keep. reflexivity.
  - simpl. discriminate.
Qed.

Lemma existsb_nil_inner {A B} (f : A -> B -> bool) (l : list A) :
  some (fun a => some (f a) []) l = false.
Proof. induction l; simpl; auto. Qed.

End StringFacts.

(** ** White space and separators in a rule *)

Section RuleLayout.

Lemma trimStart_ws_l (ws s : jsstring) :
  forallb isWhiteSpace ws = true -> trimStart (ws ++ s) = trimStart s.
Proof.
  induction ws as [|c ws IH]; simpl; [reflexivity|].
  intros H. apply andb_true_iff in H as [Hc Hw]. rewrite Hc. exact (IH Hw).
Qed.

Lemma trimStart_app (s u : jsstring) :
  trimStart s <> [] -> trimStart (s ++ u) = trimStart s ++ u.
Proof.
  induction s as [|c s IH]; simpl; [congruence|].
  destruct (isWhiteSpace c); [exact IH | reflexivity].
Qed.

Lemma trimStart_fixed (s : jsstring) :
  (forall c r, s = c :: r -> isWhiteSpace c = false) -> trimStart s = s.
Proof.
  destruct s as [|c r]; [reflexivity|]. intros H. simpl.
  rewrite (H c r eq_refl). reflexivity.
Qed.

Lemma forallb_rev {A} (f : A -> bool) (l : list A) :
  forallb f (rev l) = forallb f l.
Proof.
  induction l as [|x l IH]; simpl; [reflexivity|].
  rewrite forallb_app, IH. simpl. rewrite andb_true_r. apply andb_comm.
Qed.

Lemma trimEnd_ws_r (s ws : jsstring) :
  forallb isWhiteSpace ws = true -> trimEnd (s ++ ws) = trimEnd s.
Proof.
  intros H. unfold trimEnd. rewrite rev_app_distr, trimStart_ws_l; [reflexivity|].
  rewrite forallb_rev. exact H.
Qed.

Lemma trim_ws_l (ws s : jsstring) :
  forallb isWhiteSpace ws = true -> trim (ws ++ s) = trim s.
Proof. intros H. unfold trim. rewrite (trimStart_ws_l ws s H). reflexivity. Qed.

Lemma trim_ws_r (s ws : jsstring) :
  forallb isWhiteSpace ws = true -> trim (s ++ ws) = trim s.
Proof.
  intros H. unfold trim.
  destruct (trimStart s) as [|c r] eqn:E.
  - rewrite trimStart_all; [reflexivity|].
    rewrite forallb_app, H, andb_true_r. apply trimStart_nil. exact E.
  - rewrite trimStart_app by (rewrite E; discriminate).
    rewrite E. apply trimEnd_ws_r. exact H.
Qed.

(** What [trim] returns has no white space at either end: trimming it
    again changes nothing. *)
Lemma trim_trim (s : jsstring) : trim (trim s) = trim s.
Proof.
  unfold trim at 2 3. unfold trimEnd.
  destruct (trimStart (rev (trimStart s))) as [|c u] eqn:E; [reflexivity|].
  pose proof (trimStart_head _ _ _ E) as Hc.
  assert (Hhead : forall d q, rev (c :: u) = d :: q -> isWhiteSpace d = false).
  { intros d q Hq.
    assert (Hsuf : exists ws, rev (trimStart s) = ws ++ c :: u).
    { clear -E. induction (rev (trimStart s)) as [|x l IH]; simpl in E;
        [discriminate|].
      destruct (isWhiteSpace x).
      - destruct (IH E) as [ws Hw]. exists (x :: ws). rewrite Hw. reflexivity.
      - exists []. exact E. }
    destruct Hsuf as [ws Hw].
    apply (f_equal (@rev N)) in Hw. rewrite rev_involutive, rev_app_distr in Hw.
    rewrite Hq in Hw. simpl in Hw.
    apply (trimStart_head s d (q ++ rev ws)). exact Hw. }
  unfold trim, trimEnd. rewrite (trimStart_fixed _ Hhead), rev_involutive.
  simpl. rewrite Hc. reflexivity.
Qed.

Lemma separator_not_white (c : N) :
  isAndSeparator c = true -> isWhiteSpace c = false.
Proof.
  unfold isAndSeparator. intros H. apply orb_true_iff in H as [H|H];
    apply N.eqb_eq in H; subst; reflexivity.
Qed.

Lemma pipe_not_white (c : N) : isPipe c = true -> isWhiteSpace c = false.
Proof. unfold isPipe. intros H. apply N.eqb_eq in H. subst. reflexivity. Qed.

Variable sep : N -> bool.
Hypothesis sep_not_white : forall c, sep c = true -> isWhiteSpace c = false.

Lemma white_not_sep (ws : jsstring) :
  forallb isWhiteSpace ws = true -> forallb (fun c => negb (sep c)) ws = true.
Proof.
  rewrite !forallb_forall. intros H c Hc. specialize (H c Hc).
  destruct (sep c) eqn:E; [|reflexivity].
  rewrite (sep_not_white c E) in H. discriminate.
Qed.

Lemma split_prefix (ws s : jsstring) :
  forallb (fun c => negb (sep c)) ws = true ->
  exists h t, split sep s = h :: t /\ split sep (ws ++ s) = (ws ++ h) :: t.
Proof.
  intros H. induction ws as [|c ws IH]; simpl.
  - destruct (split sep s) as [|h t] eqn:E; [destruct (split_not_nil _ _ E)|].
    exists h, t. auto.
  - simpl in H. apply andb_true_iff in H as [Hc Hw].
    destruct (IH Hw) as [h [t [E1 E2]]].
    apply negb_true_iff in Hc. rewrite Hc, E2. exists h, t. auto.
Qed.

Lemma split_suffix (s ws : jsstring) :
  forallb (fun c => negb (sep c)) ws = true ->
  exists init last,
    split sep s = init ++ [last] /\ split sep (s ++ ws) = init ++ [last ++ ws].
Proof.
  intros H. induction s as [|c s [init [last [E1 E2]]]].
  - exists [], []. split; [reflexivity|]. simpl.
    destruct (split_prefix ws [] H) as [h [t [E1 E2]]].
    simpl in E1. injection E1 as <- <-. rewrite app_nil_r in E2. exact E2.
  - simpl. destruct (sep c).
    + exists ([] :: init), last. rewrite E1, E2. auto.
    + rewrite E1, E2. destruct init as [|h t]; simpl.
      * exists [], (c :: last). auto.
      * exists ((c :: h) :: t), last. auto.
Qed.

(** The pieces of a text, trimmed, the empty ones dropped: what both the
    groups of a rule and the terms of a group are. *)
Lemma pieces_ws_l (ws s : jsstring) :
  forallb isWhiteSpace ws = true ->
  filter truthy (map trim (split sep (ws ++ s)))
  = filter truthy (map trim (split sep s)).
Proof.
  intros H. destruct (split_prefix ws s (white_not_sep ws H)) as [h [t [E1 E2]]].
  rewrite E1, E2. simpl. rewrite (trim_ws_l ws h H). reflexivity.
Qed.

Lemma pieces_ws_r (s ws : jsstring) :
  forallb isWhiteSpace ws = true ->
  filter truthy (map trim (split sep (s ++ ws)))
  = filter truthy (map trim (split sep s)).
Proof.
  intros H.
  destruct (split_suffix s ws (white_not_sep ws H)) as [init [last [E1 E2]]].
  rewrite E1, E2, !map_app. simpl. rewrite (trim_ws_r last ws H). reflexivity.
Qed.


End RuleLayout.

(** ** Terms, trimming and substrings, said without the script's helpers *)

Section TermsOfGroup.

Lemma startsWith_iff (s x : jsstring) :
  startsWith s x = true <-> exists post, s = x ++ post.
Proof.
  revert s. induction x as [|a x IH]; intros s.
  - rewrite startsWith_nil. split; [intros _; exists s; reflexivity | reflexivity].
  - destruct s as [|b s].
    + split; [discriminate | intros [post H]; discriminate].
    + change (startsWith (b :: s) (a :: x))
        with ((a =? b)%N && startsWith s x).
      rewrite andb_true_iff, N.eqb_eq, IH. split.
      * intros [-> [post ->]]. exists post. reflexivity.
      * intros [post H]. injection H as -> ->. split; [reflexivity | eauto].
Qed.

(** [s.includes(x)] holds exactly when [x] occurs in [s]. *)
Lemma includes_iff (s x : jsstring) :
  includes s x = true <-> exists pre post, s = pre ++ x ++ post.
Proof.
  induction s as [|c s IH].
  - change (includes [] x) with (startsWith [] x || false).
    rewrite orb_false_r, startsWith_iff. split.
    + intros [post H]. exists [], post. exact H.
    + intros [pre [post H]]. destruct pre; [|discriminate].
      exists post. exact H.
  - change (includes (c :: s) x) with (startsWith (c :: s) x || includes s x).
    rewrite orb_true_iff, startsWith_iff, IH. split.
    + intros [[post H]|[pre [post H]]].
      * exists [], post. exact H.
      * exists (c :: pre), post. rewrite H. reflexivity.
    + intros [pre [post H]]. destruct pre as [|d pre].
      * left. exists post. exact H.
      * right. injection H as _ H. exists pre, post. exact H.
Qed.

Lemma split_whole (sep : N -> bool) (x : jsstring) :
  forallb (fun c => negb (sep c)) x = true -> split sep x = [x].
Proof.
  induction x as [|c x IH]; simpl; [reflexivity|].
  intros H. apply andb_true_iff in H as [Hc Hx].
  apply negb_true_iff in Hc. rewrite Hc, (IH Hx). reflexivity.
Qed.

Lemma no_pipe (part : jsstring) :
  ~ In Ch.pipe part -> forallb (fun c => negb (isPipe c)) part = true.
Proof.
  intros H. apply forallb_forall. intros c Hc. apply negb_true_iff.
  unfold isPipe. apply N.eqb_neq. intros ->. exact (H Hc).
Qed.

(** The terms of the group written [parts.join('|')], no part holding a
    pipe, are the parts, trimmed, the empty ones dropped. *)
Lemma termsOf_join (parts : list jsstring) :
  Forall (fun part => ~ In Ch.pipe part) parts ->
  termsOf (join [Ch.pipe] parts) = filter truthy (map trim parts).
Proof.
  unfold termsOf. induction parts as [|x rest IH]; intros H; [reflexivity|].
  inversion H as [|x' rest' Hx Hrest]; subst.
  destruct rest as [|y l].
  - simpl join. rewrite (split_whole isPipe x (no_pipe x Hx)). reflexivity.
  - change (join [Ch.pipe] (x :: y :: l))
      with (x ++ Ch.pipe :: join [Ch.pipe] (y :: l)).
    rewrite (split_app isPipe x _ Ch.pipe eq_refl), map_app, filter_app.
    rewrite (IH Hrest), (split_whole isPipe x (no_pipe x Hx)).
    rewrite <- filter_app, <- map_app. reflexivity.
Qed.

(** Every group is the join of its pieces, none of which holds a pipe. *)
Lemma join_split (g : jsstring) :
  join [Ch.pipe] (split isPipe g) = g
  /\ Forall (fun part => ~ In Ch.pipe part) (split isPipe g).
Proof.
  induction g as [|c g [IH F]]; [split; [reflexivity | repeat constructor; auto]|].
  simpl split. destruct (isPipe c) eqn:E.
  - apply N.eqb_eq in E. subst c.
    destruct (split isPipe g) as [|h t] eqn:S0;
      [destruct (split_not_nil _ _ S0)|].
    split; [|constructor; [intros [] | exact F]].
    change (join [Ch.pipe] ([] :: h :: t)) with (Ch.pipe :: join [Ch.pipe] (h :: t)).
    rewrite IH. reflexivity.
  - destruct (split isPipe g) as [|h t] eqn:S0;
      [destruct (split_not_nil _ _ S0)|].
    pose proof (Forall_inv F) as Hh. pose proof (Forall_inv_tail F) as Ht.
    simpl in Hh. split.
    + rewrite <- IH. destruct t; reflexivity.
    + constructor; [|exact Ht]. intros [->|H]; [|exact (Hh H)].
      discriminate.
Qed.

Lemma trimStart_decompose (s : jsstring) :
  exists ws, s = ws ++ trimStart s /\ forallb isWhiteSpace ws = true.
Proof.
  induction s as [|c s [ws [E W]]]; simpl.
  - exists []. auto.
  - destruct (isWhiteSpace c) eqn:Hc.
    + exists (c :: ws). simpl. rewrite Hc, W. split; [congruence | reflexivity].
    + exists []. auto.
Qed.

(** What [trim] removes is white space on the two sides. *)
Lemma trim_decompose (s : jsstring) :
  exists ws1 ws2,
    s = ws1 ++ trim s ++ ws2
    /\ forallb isWhiteSpace ws1 = true /\ forallb isWhiteSpace ws2 = true.
Proof.
  destruct (trimStart_decompose s) as [ws1 [E1 W1]].
  destruct (trimStart_decompose (rev (trimStart s))) as [ws2 [E2 W2]].
  exists ws1, (rev ws2). unfold trim, trimEnd.
  rewrite forallb_rev, <- rev_app_distr, <- E2, rev_involutive. auto.
Qed.

Lemma length_trimStart (s : jsstring) :
  List.length (trimStart s) <= List.length s.
Proof.
  induction s as [|c s IH]; simpl; [lia|].
  destruct (isWhiteSpace c); simpl; lia.
Qed.

Lemma length_trim (s : jsstring) : List.length (trim s) <= List.length s.
Proof.
  unfold trim, trimEnd. rewrite length_rev.
  pose proof (length_trimStart (rev (trimStart s))) as H.
  rewrite length_rev in H. pose proof (length_trimStart s). lia.
Qed.

(** What [trim] returns, when not empty, starts and ends with a unit
    that is not white space. The space is the default of [hd] and [last],
    so that the two tests fail on the empty text. *)
Lemma trim_ends (s : jsstring) :
  trim s <> [] ->
  isWhiteSpace (hd 32%N (trim s)) = false
  /\ isWhiteSpace (last (trim s) 32%N) = false.
Proof.
  intros Hne. split.
  - destruct (trim s) as [|d q] eqn:E; [congruence|]. simpl.
    destruct (isWhiteSpace d) eqn:Hd; [|reflexivity]. exfalso.
    pose proof (trim_trim s) as T. rewrite E in T.
    unfold trim in T. simpl trimStart in T. rewrite Hd in T.
    pose proof (length_trim q) as L. unfold trim in L. rewrite T in L.
    simpl in L. lia.
  - unfold trim, trimEnd in *.
    destruct (trimStart (rev (trimStart s))) as [|c u] eqn:E;
      [exfalso; apply Hne; reflexivity|].
    simpl rev. rewrite last_last. exact (trimStart_head _ _ _ E).
Qed.

(** A text with white space around a term that starts and ends with a
    unit that is not white space is trimmed to that term. *)
Lemma trim_of_term (ws1 term ws2 : jsstring) :
  forallb isWhiteSpace ws1 = true -> forallb isWhiteSpace ws2 = true ->
  isWhiteSpace (hd 32%N term) = false ->
  isWhiteSpace (last term 32%N) = false ->
  trim (ws1 ++ term ++ ws2) = term /\ term <> [].
Proof.
  intros W1 W2 Hh Hl.
  assert (Hne : term <> []) by (intros ->; discriminate).
  split; [|exact Hne].
  rewrite (trim_ws_l ws1 _ W1), (trim_ws_r term ws2 W2).
  unfold trim, trimEnd.
  rewrite (trimStart_fixed term)
    by (intros c r ->; exact Hh).
  destruct term as [|c init] using rev_ind; [congruence|].
  rewrite last_last in Hl. rewrite rev_app_distr. simpl.
  rewrite Hl. simpl. rewrite rev_involutive. reflexivity.
Qed.

(** The terms of a group, said with the parts between the pipes and the
    white space around each. *)
Lemma term_of_parts (parts : list jsstring) (term : jsstring) :
  Forall (fun part => ~ In Ch.pipe part) parts ->
  In term (termsOf (join [Ch.pipe] parts)) <->
  exists part ws1 ws2,
    In part parts
    /\ part = ws1 ++ term ++ ws2
    /\ forallb isWhiteSpace ws1 = true /\ forallb isWhiteSpace ws2 = true
    /\ isWhiteSpace (hd 32%N term) = false
    /\ isWhiteSpace (last term 32%N) = false.
Proof.
  intros H. rewrite (termsOf_join parts H), filter_In, in_map_iff. split.
  - intros [[part [<- Hp]] T].
    assert (Hne : trim part <> []) by (intros E; rewrite E in T; discriminate).
    destruct (trim_decompose part) as [ws1 [ws2 [E [W1 W2]]]].
    destruct (trim_ends part Hne) as [Hh Hl].
    exists part, ws1, ws2. auto 8.
  - intros [part [ws1 [ws2 [Hp [-> [W1 [W2 [Hh Hl]]]]]]]].
    destruct (trim_of_term ws1 term ws2 W1 W2 Hh Hl) as [T Hne].
    split; [exists (ws1 ++ term ++ ws2); auto|].
    destruct term; [congruence | reflexivity].
Qed.

End TermsOfGroup.

(** ** The monad *)

Section MonadFacts.

Variables A B : Type.

Lemma bind_value (m : M A) (k : A -> M B) (p : Page) (a : A) :
  snd (m p) = inr a -> bind m k p = k a (fst (m p)).
Proof.
  unfold bind. destruct (m p) as [q [e|a']]; simpl; congruence.
Qed.

Lemma bind_throw (m : M A) (k : A -> M B) (p : Page) (e : exn) :
  snd (m p) = inl e -> bind m k p = (fst (m p), inl e).
Proof.
  unfold bind. destruct (m p) as [q [e'|a']]; simpl; congruence.
Qed.

Variable X : Type.
Variable f : Page -> X.

Lemma preserves_ret (a : A) : preserves f (ret a).
Proof. intros p; reflexivity. Qed.

Lemma preserves_throw (e : exn) : preserves f (throw (A := A) e).
Proof. intros p; reflexivity. Qed.

Lemma preserves_bind (m : M A) (k : A -> M B) :
  preserves f m -> (forall a, preserves f (k a)) -> preserves f (bind m k).
Proof.
  intros Hm Hk p. unfold bind. specialize (Hm p).
  destruct (m p) as [q [e|a]]; simpl in *; [exact Hm|].
  rewrite Hk. exact Hm.
Qed.

Lemma preserves_forEach (g : A -> M unit) (l : list A) :
  (forall a, preserves f (g a)) -> preserves f (forEach g l).
Proof.
  intros Hg. induction l as [|x xs IH]; simpl.
  - intros p; reflexivity.
  - unfold preserves, bind. intros p. specialize (Hg x p).
    destruct (g x p) as [q [e|u]]; simpl in *; [exact Hg|].
    rewrite IH. exact Hg.
Qed.

Lemma preserves_every (g : A -> M bool) (l : list A) :
  (forall a, preserves f (g a)) -> preserves f (every g l).
Proof.
  intros Hg. induction l as [|x xs IH]; simpl.
  - intros p; reflexivity.
  - unfold preserves, bind. intros p. specialize (Hg x p).
    destruct (g x p) as [q [e|[|]]]; simpl in *; [exact Hg | | exact Hg].
    rewrite IH. exact Hg.
Qed.

End MonadFacts.

Lemma preserves_get X (f : Page -> X) : preserves f get.
Proof. intros p; reflexivity. Qed.

Lemma preserves_flatMap X (f : Page -> X) A B (g : A -> M (list B)) l :
  (forall a, preserves f (g a)) -> preserves f (flatMap g l).
Proof.
  intros Hg. induction l as [|x xs IH]; simpl.
  - intros p; reflexivity.
  - apply preserves_bind; [apply Hg|]. intros ys.
    apply preserves_bind; [exact IH|]. intros zs p; reflexivity.
Qed.

Create HintDb frame.

#[local] Hint Resolve preserves_ret preserves_throw preserves_get
  preserves_bind preserves_forEach preserves_every preserves_flatMap : frame.

(** Frames through [bind]: the hints of [frame] at each step. *)
Ltac frame :=
  repeat first [ solve [auto with frame] | progress intros
               | apply preserves_bind ].

Lemma tbody_console_blind : console_blind tbody.
Proof. intros l p; reflexivity. Qed.

Lemma converters_console_blind : console_blind converters.
Proof. intros l p; reflexivity. Qed.

Lemma constructed_console_blind : console_blind constructed.
Proof. intros l p; reflexivity. Qed.

Lemma converters_tbody_blind : tbody_blind converters.
Proof. intros l p; reflexivity. Qed.

Lemma constructed_tbody_blind : tbody_blind constructed.
Proof. intros l p; reflexivity. Qed.

Lemma tbody_cache_blind : cache_blind tbody.
Proof. split; intros; reflexivity. Qed.

Lemma console_cache_blind : cache_blind console.
Proof. split; intros; reflexivity. Qed.

#[local] Hint Resolve tbody_console_blind converters_console_blind
  constructed_console_blind converters_tbody_blind constructed_tbody_blind
  tbody_cache_blind console_cache_blind : frame.

(** ** Frames of the script's functions *)

Section ScriptFrames.

Context {host : Host}.

Variable X : Type.
Variable f : Page -> X.

Lemma preserves_call field s : preserves f (call field s).
Proof.
  intros p. unfold call, bind, get. simpl.
  destruct (field (converters p)) as [c|]; [|reflexivity].
  destruct (OpenCC_Converter (conv_from c) (conv_to c) s); reflexivity.
Qed.

#[local] Hint Resolve preserves_call : frame.

Lemma preserves_variantsOf s : preserves f (variantsOf s).
Proof. unfold variantsOf. frame. Qed.

#[local] Hint Resolve preserves_variantsOf : frame.

Lemma preserves_console_warn g : console_blind f -> preserves f (console_warn g).
Proof. intros Hf p. apply Hf. Qed.

#[local] Hint Resolve preserves_console_warn : frame.

Lemma preserves_matchesGroup tvs g :
  console_blind f -> preserves f (matchesGroup tvs g).
Proof.
  intros Hf. unfold matchesGroup.
  destruct (isRegexGroup g); [destruct (RegExp _ _)|]; frame.
Qed.

#[local] Hint Resolve preserves_matchesGroup : frame.

Lemma preserves_processRow gs r :
  console_blind f -> preserves f (processRow gs r).
Proof.
  intros Hf. unfold processRow. frame.
Qed.

#[local] Hint Resolve preserves_processRow : frame.

Lemma preserves_processRows gs rows fragment :
  console_blind f -> preserves f (processRows gs rows fragment).
Proof.
  intros Hf. revert fragment.
  induction rows as [|r rest IH]; intros fragment; simpl.
  - apply preserves_ret.
  - frame.
Qed.

Lemma preserves_removeChild r : tbody_blind f -> preserves f (removeChild r).
Proof.
  intros Hf p. unfold removeChild, bind, get. simpl.
  destruct (remove_child (handle r) (tbody p)); simpl; [apply Hf | reflexivity].
Qed.

Lemma preserves_appendFragment l : tbody_blind f -> preserves f (appendFragment l).
Proof. intros Hf p. apply Hf. Qed.

Lemma preserves_initConverters : cache_blind f -> preserves f initConverters.
Proof.
  intros [Hc Hn] p. unfold initConverters, bind, get. simpl.
  destruct (is_null (toTraditional (converters p))
            || is_null (toSimplified (converters p))); [|reflexivity].
  cbv [bind newConverter set_toTraditional set_toSimplified modify fst].
  rewrite Hc, Hn, Hc, Hn. reflexivity.
Qed.

End ScriptFrames.

#[local] Hint Resolve preserves_call preserves_variantsOf
  preserves_console_warn preserves_matchesGroup preserves_processRow
  preserves_processRows preserves_removeChild preserves_appendFragment
  preserves_initConverters : frame.

(** ** The converter cache *)

Section Cache.

Context {host : Host}.

(** The cache after the first construction on a page that has seen [n]
    constructions. *)
Lemma initConverters_constructs (p : Page) :
  is_null (toTraditional (converters p))
  || is_null (toSimplified (converters p)) = true ->
  initConverters p =
  (with_converters
     {| toTraditional :=
          Some {| conv_id := constructed p; conv_from := cn; conv_to := twp |};
        toSimplified :=
          Some {| conv_id := S (constructed p); conv_from := tw; conv_to := cn |} |}
     (with_constructed (S (S (constructed p))) p),
   inr tt).
Proof.
  intros H. unfold initConverters, bind, get. rewrite H. reflexivity.
Qed.

Lemma initConverters_reuses (p : Page) :
  is_null (toTraditional (converters p))
  || is_null (toSimplified (converters p)) = false ->
  initConverters p = (p, inr tt).
Proof.
  intros H. unfold initConverters, bind, get. rewrite H. reflexivity.
Qed.

Lemma initConverters_returns (p : Page) : snd (initConverters p) = inr tt.
Proof.
  destruct (is_null (toTraditional (converters p))
            || is_null (toSimplified (converters p))) eqn:E.
  - rewrite (initConverters_constructs _ E). reflexivity.
  - rewrite (initConverters_reuses _ E). reflexivity.
Qed.

Lemma initConverters_initialized (p : Page) :
  cache_ok (converters p) ->
  initialized (converters (fst (initConverters p))).
Proof.
  intros Hok.
  destruct (is_null (toTraditional (converters p))
            || is_null (toSimplified (converters p))) eqn:E.
  - rewrite (initConverters_constructs _ E). simpl.
    do 2 eexists. repeat split; reflexivity.
  - rewrite (initConverters_reuses _ E). simpl.
    destruct (toTraditional (converters p)) as [a|] eqn:Ea; [|discriminate].
    destruct (toSimplified (converters p)) as [b|] eqn:Eb; [|discriminate].
    exists a, b. destruct (Hok a b Ea Eb) as [Ha Hb]. repeat split; tauto.
Qed.

Lemma initialized_cache_ok (c : Converters) : initialized c -> cache_ok c.
Proof.
  intros [a [b [Ea [Eb [Ha Hb]]]]] a' b' Ea' Eb'.
  rewrite Ea in Ea'. rewrite Eb in Eb'.
  injection Ea' as <-. injection Eb' as <-. tauto.
Qed.

(** Detaching the rows one by one empties the body. *)
Lemma forEach_removeChild (rows rest : list Row) (p : Page) :
  tbody p = rows ++ rest ->
  forEach removeChild rows p = (with_tbody rest p, inr tt).
Proof.
  revert p. induction rows as [|r rows IH]; intros p Hp; simpl in *.
  - unfold ret. destruct p; simpl in *. subst. reflexivity.
  - unfold bind at 1. unfold removeChild at 1. unfold bind, get.
    rewrite Hp. simpl. rewrite Nat.eqb_refl. simpl.
    rewrite (IH (with_tbody (rows ++ rest) p) eq_refl). reflexivity.
Qed.

End Cache.

(** ** A pass under a pure capability *)

Section PureCapability.

Context {host : Host}.

Variables toVariantA toVariantB : jsstring -> jsstring.

(** The two directions never throw: they are the functions [toVariantA]
    and [toVariantB]. *)
Hypothesis convA : forall s, OpenCC_Converter cn twp s = inr (toVariantA s).
Hypothesis convB : forall s, OpenCC_Converter tw cn s = inr (toVariantB s).

Local Notation "'forms'" := (variantForms toVariantA toVariantB).
Local Notation "'holds'" := (groupHolds toVariantA toVariantB).

Lemma variantsOf_pure (s : jsstring) (p : Page) :
  initialized (converters p) -> variantsOf s p = (p, inr (forms s)).
Proof.
  intros [a [b [Ea [Eb [[Fa Ta] [Fb Tb]]]]]].
  unfold variantsOf, call, bind, get.
  rewrite Ea, Fa, Ta, convA. unfold ret at 1.
  rewrite Eb, Fb, Tb, convB. reflexivity.
Qed.

Lemma flatMap_variantsOf_pure (terms : list jsstring) (p : Page) :
  initialized (converters p) ->
  flatMap variantsOf terms p = (p, inr (flat_map forms terms)).
Proof.
  intros Hp. induction terms as [|x xs IH]; simpl; [reflexivity|].
  unfold bind at 1. rewrite (variantsOf_pure _ _ Hp).
  unfold bind. rewrite IH. reflexivity.
Qed.

Lemma matchesGroup_pure (tvs : list jsstring) (g : jsstring) (p : Page) :
  initialized (converters p) ->
  snd (matchesGroup tvs g p) = inr (holds tvs g).
Proof.
  intros Hp. unfold matchesGroup, groupHolds.
  destruct (isRegexGroup g).
  - destruct (RegExp _ _); reflexivity.
  - unfold bind. rewrite (flatMap_variantsOf_pure _ _ Hp). reflexivity.
Qed.

Lemma every_matchesGroup_pure (tvs : list jsstring) (gs : list jsstring)
  (p : Page) :
  initialized (converters p) ->
  snd (every (matchesGroup tvs) gs p) = inr (forallb (holds tvs) gs).
Proof.
  revert p. induction gs as [|g gs IH]; intros p Hp; simpl; [reflexivity|].
  rewrite (bind_value _ _ _ _ _ _ (matchesGroup_pure tvs g p Hp)).
  destruct (holds tvs g); [|reflexivity].
  apply IH. rewrite (preserves_matchesGroup _ _ tvs g converters_console_blind p).
  exact Hp.
Qed.

Lemma processRow_pure (gs : list jsstring) (r : Row) (p : Page) :
  initialized (converters p) ->
  snd (processRow gs r p) = inr (rowAfter toVariantA toVariantB gs r).
Proof.
  intros Hp. unfold processRow.
  unfold bind at 1. rewrite (variantsOf_pure _ _ Hp).
  rewrite (bind_value _ _ _ _ _ _ (every_matchesGroup_pure _ gs p Hp)).
  reflexivity.
Qed.

Lemma processRows_pure (gs : list jsstring) (rows fragment : list Row)
  (p : Page) :
  initialized (converters p) ->
  snd (processRows gs rows fragment p)
  = inr (fragment ++ map (rowAfter toVariantA toVariantB gs) rows).
Proof.
  revert fragment p.
  induction rows as [|r rest IH]; intros fragment p Hp; simpl.
  - rewrite app_nil_r. reflexivity.
  - rewrite (bind_value _ _ _ _ _ _ (processRow_pure gs r p Hp)).
    rewrite IH.
    + rewrite <- app_assoc. reflexivity.
    + rewrite (preserves_processRow _ _ gs r converters_console_blind p).
      exact Hp.
Qed.

(** A pass returns and leaves in the body, in the order they had, the
    rows with their new [display]. *)
Lemma filterTitles_pure (keywords : jsstring) (p : Page) :
  cache_ok (converters p) ->
  exists p',
    filterTitles keywords p = (p', inr tt)
    /\ tbody p' = map (decide toVariantA toVariantB keywords) (tbody p)
    /\ cache_ok (converters p').
Proof.
  intros Hok. unfold filterTitles.
  destruct (negb (truthy keywords) || negb (truthy (trim keywords))) eqn:E.
  - eexists; split; [reflexivity|]. split; [|exact Hok]. simpl.
    assert (G : filterGroupsOf keywords = []).
    { apply filterGroupsOf_trim_nil. apply orb_true_iff in E as [E|E];
        apply negb_true_iff, truthy_false in E; [subst; reflexivity | exact E]. }
    unfold decide, rowAfter. rewrite G. reflexivity.
  - rewrite (bind_value _ _ _ _ _ _ (initConverters_returns p)).
    pose proof (initConverters_initialized p Hok) as Hi.
    pose proof (preserves_initConverters _ _ tbody_cache_blind p) as Ht.
    set (p1 := fst (initConverters p)) in *.
    unfold filterRows, bind at 1, get at 1.
    unfold bind at 1. rewrite (forEach_removeChild (tbody p1) [] p1)
      by (symmetry; apply app_nil_r).
    pose proof (processRows_pure (filterGroupsOf keywords) (tbody p1) []
                  (with_tbody [] p1) Hi) as Hv.
    pose proof (preserves_processRows _ _ (filterGroupsOf keywords) (tbody p1) []
                  tbody_console_blind (with_tbody [] p1)) as Hb.
    pose proof (preserves_processRows _ _ (filterGroupsOf keywords) (tbody p1) []
                  converters_console_blind (with_tbody [] p1)) as Hc.
    rewrite (bind_value _ _ _ _ _ _ Hv).
    eexists; split; [reflexivity|]. simpl.
    rewrite Hb, Hc. simpl. rewrite Ht. split; [reflexivity|].
    apply initialized_cache_ok. exact Hi.
Qed.

Lemma visible_set_display (b : bool) (r : Row) :
  visible (set_display (if b then shown else hidden) r) = b.
Proof. destruct b; reflexivity. Qed.

(** The result of a pass, read by the collaborator. *)
Lemma filterAll_pure (keywords : jsstring) (p : Page) :
  cache_ok (converters p) ->
  filterAll keywords p =
  inr (map (fun r => (handle r,
                      forallb (holds (forms (title r))) (filterGroupsOf keywords)))
         (tbody p)).
Proof.
  intros Hok. unfold filterAll.
  destruct (filterTitles_pure keywords p Hok) as [p' [E [T _]]].
  rewrite E, T, map_map. f_equal. apply map_ext. intros r.
  unfold decide, rowAfter. rewrite visible_set_display. reflexivity.
Qed.

Lemma both_map {R} (h : R -> nat) (f g : R -> bool) (l : list R) :
  both (map (fun r => (h r, f r)) l) (map (fun r => (h r, g r)) l)
  = map (fun r => (h r, f r && g r)) l.
Proof.
  unfold both. induction l as [|x xs IH]; simpl; [reflexivity|].
  f_equal. exact IH.
Qed.

Lemma processRow_single_pure (g : jsstring) (r : Row) (p : Page) :
  initialized (converters p) ->
  exists p',
    processRow [g] r p =
    (p', inr (set_display
                (if holds (forms (title r)) g then shown else hidden) r))
    /\ p' = fst (matchesGroup (forms (title r)) g p).
Proof.
  intros Hp. unfold processRow.
  unfold bind at 1. rewrite (variantsOf_pure _ _ Hp). simpl every.
  pose proof (matchesGroup_pure (forms (title r)) g p Hp) as Hv.
  unfold bind at 2.
  destruct (matchesGroup (forms (title r)) g p) as [q [e|b]] eqn:E;
    simpl in Hv; [discriminate|]. injection Hv as ->.
  unfold bind. rewrite E.
  destruct (holds (forms (title r)) g); eexists; split; reflexivity.
Qed.

Lemma matchesGroup_plain_state (tvs : list jsstring) (g : jsstring) (p : Page) :
  initialized (converters p) -> isRegexGroup g = false ->
  fst (matchesGroup tvs g p) = p.
Proof.
  intros Hp Hg. unfold matchesGroup. rewrite Hg.
  unfold bind. rewrite (flatMap_variantsOf_pure _ _ Hp). reflexivity.
Qed.

(** ** The rule language *)


(** C2. A rule made only of AND separators and white space (the empty
    rule included), or more generally a rule whose list of groups is
    empty, shows every row. *)
Theorem blank_rule_shows_every_row (keywords : jsstring) (p : Page) :
  cache_ok (converters p) ->
  forallb (fun c => isAndSeparator c || isWhiteSpace c) keywords = true
  \/ filterGroupsOf keywords = [] ->
  filterAll keywords p = inr (map (fun r => (handle r, true)) (tbody p)).
Proof.
  intros Hok H.
  assert (G : filterGroupsOf keywords = []).
  { destruct H as [H|H]; [apply filterGroupsOf_blank; exact H | exact H]. }
  rewrite (filterAll_pure keywords p Hok), G. reflexivity.
Qed.

(** C3. A row is shown by the rule [R1;R2] iff it is shown by [R1] and by
    [R2]; swapping the two sides, or writing the full-width semicolon for
    the ASCII one, gives the same result. *)
Theorem and_groups_independent (R1 R2 : jsstring) (p : Page) :
  cache_ok (converters p) ->
  exists l1 l2,
    filterAll R1 p = inr l1 /\ filterAll R2 p = inr l2
    /\ map fst l1 = map handle (tbody p)
    /\ map fst l2 = map handle (tbody p)
    /\ filterAll (R1 ++ Ch.semicolon :: R2) p = inr (both l1 l2)
    /\ filterAll (R2 ++ Ch.semicolon :: R1) p
       = filterAll (R1 ++ Ch.semicolon :: R2) p
    /\ filterAll (R1 ++ Ch.fullwidth_semicolon :: R2) p
       = filterAll (R1 ++ Ch.semicolon :: R2) p.
Proof.
  intros Hok. rewrite !(fun k => filterAll_pure k p Hok).
  do 2 eexists. split; [reflexivity|]. split; [reflexivity|].
  rewrite !map_map. simpl. split; [reflexivity|]. split; [reflexivity|].
  rewrite both_map.
  rewrite !(fun a b => filterGroupsOf_app a b Ch.semicolon eq_refl).
  rewrite (filterGroupsOf_app R1 R2 Ch.fullwidth_semicolon eq_refl).
  repeat split; f_equal; apply map_ext; intros r; f_equal;
    rewrite !forallb_app; auto using andb_comm.
Qed.

Lemma In_variantForms (s v : jsstring) :
  In v (forms s) <->
  v = toLowerCase s \/ v = toLowerCase (toVariantA s)
  \/ v = toLowerCase (toVariantB s).
Proof.
  unfold variantForms. simpl. split.
  - intros [H|[H|[H|[]]]]; auto.
  - intros [H|[H|H]]; auto.
Qed.

(** C4. Take the group written as its pipe-separated parts,
    [parts.join('|')], no part holding a pipe (every group is such a
    join), and not of the regex shape, a slash, a non-empty body, a slash.
    The per-row callback returns, and shows the row iff for some part,
    with [term] what is left of it once the white space on its two sides
    is removed ([term] is not empty and neither starts nor ends with
    white space), one of the three lowercased forms of [term] (original,
    variant A, variant B) occurs in one of the three lowercased forms of
    the title. In particular a term matches a title in which only a
    script-variant conversion of the term occurs, not the term. *)
Theorem plain_group_matches_any_variant_pair (parts : list jsstring)
  (r : Row) (p : Page) :
  initialized (converters p) ->
  Forall (fun part => ~ In Ch.pipe part) parts ->
  (forall body, body <> [] ->
                join [Ch.pipe] parts <> Ch.slash :: body ++ [Ch.slash]) ->
  exists r',
    processRow [join [Ch.pipe] parts] r p = (p, inr r')
    /\ (visible r' = true <->
        exists part ws1 term ws2 termVariant titleVariant pre post,
          In part parts
          /\ part = ws1 ++ term ++ ws2
          /\ forallb isWhiteSpace ws1 = true
          /\ forallb isWhiteSpace ws2 = true
          /\ isWhiteSpace (hd 32%N term) = false
          /\ isWhiteSpace (last term 32%N) = false
          /\ (termVariant = toLowerCase term
              \/ termVariant = toLowerCase (toVariantA term)
              \/ termVariant = toLowerCase (toVariantB term))
          /\ (titleVariant = toLowerCase (title r)
              \/ titleVariant = toLowerCase (toVariantA (title r))
              \/ titleVariant = toLowerCase (toVariantB (title r)))
          /\ titleVariant = pre ++ termVariant ++ post)
    /\ (forall term pre post,
          In term parts ->
          isWhiteSpace (hd 32%N term) = false ->
          isWhiteSpace (last term 32%N) = false ->
          toLowerCase (title r)
          = pre ++ toLowerCase (toVariantA term) ++ post
          \/ toLowerCase (title r)
             = pre ++ toLowerCase (toVariantB term) ++ post ->
          visible r' = true).
Proof.
  intros Hp Hparts Hshape.
  set (g := join [Ch.pipe] parts) in *.
  assert (Hg : isRegexGroup g = false).
  { apply not_true_is_false. intros Hg.
    apply isRegexGroup_shape in Hg as [body [Hb E]]. exact (Hshape body Hb E). }
  destruct (processRow_single_pure g r p Hp) as [p' [E ->]].
  rewrite (matchesGroup_plain_state _ g p Hp Hg) in E.
  eexists. split; [exact E|]. rewrite visible_set_display.
  unfold groupHolds. rewrite Hg. unfold plainHolds, some.
  assert (Iff : existsb
            (fun titleVariant =>
               existsb (fun termVariant => includes titleVariant termVariant)
                 (flat_map (variantForms toVariantA toVariantB) (termsOf g)))
            (forms (title r)) = true <->
          exists part ws1 term ws2 termVariant titleVariant pre post,
            In part parts
            /\ part = ws1 ++ term ++ ws2
            /\ forallb isWhiteSpace ws1 = true
            /\ forallb isWhiteSpace ws2 = true
            /\ isWhiteSpace (hd 32%N term) = false
            /\ isWhiteSpace (last term 32%N) = false
            /\ (termVariant = toLowerCase term
                \/ termVariant = toLowerCase (toVariantA term)
                \/ termVariant = toLowerCase (toVariantB term))
            /\ (titleVariant = toLowerCase (title r)
                \/ titleVariant = toLowerCase (toVariantA (title r))
                \/ titleVariant = toLowerCase (toVariantB (title r)))
            /\ titleVariant = pre ++ termVariant ++ post).
  { rewrite existsb_exists. split.
    - intros [tv [Htv H]]. apply existsb_exists in H as [v [Hv Hi]].
      apply in_flat_map in Hv as [term [Ht Hv]].
      apply (term_of_parts parts term Hparts) in Ht
        as [part [ws1 [ws2 [Hin [Epart [W1 [W2 [Hh Hl]]]]]]]].
      apply includes_iff in Hi as [pre [post Hi]].
      apply In_variantForms in Hv. apply In_variantForms in Htv.
      exists part, ws1, term, ws2, v, tv, pre, post. auto 10.
    - intros [part [ws1 [term [ws2 [v [tv [pre [post
              [Hin [Epart [W1 [W2 [Hh [Hl [Hv [Htv Hi]]]]]]]]]]]]]]]].
      exists tv. split; [apply In_variantForms; exact Htv|].
      apply existsb_exists. exists v. split.
      + apply in_flat_map. exists term. split; [|apply In_variantForms; exact Hv].
        apply (term_of_parts parts term Hparts).
        exists part, ws1, ws2. auto 8.
      + apply includes_iff. exists pre, post. exact Hi. }
  split; [exact Iff|].
  intros term pre post Hin Hh Hl H. apply Iff.
  destruct H as [H|H].
  - exists term, [], term, [], (toLowerCase (toVariantA term)),
      (toLowerCase (title r)), pre, post.
    rewrite app_nil_r. simpl. auto 12.
  - exists term, [], term, [], (toLowerCase (toVariantB term)),
      (toLowerCase (title r)), pre, post.
    rewrite app_nil_r. simpl. auto 12.
Qed.

(** C5. A rule with a group that has no term (a group made of pipes and
    white space, as the middle group of [A;|;B]) hides every row. *)
Theorem group_without_terms_hides_every_row (keywords g : jsstring)
  (p : Page) :
  cache_ok (converters p) ->
  In g (filterGroupsOf keywords) ->
  termsOf g = [] ->
  filterAll keywords p = inr (map (fun r => (handle r, false)) (tbody p)).
Proof.
  intros Hok Hin Ht.
  rewrite (filterAll_pure keywords p Hok). f_equal. apply map_ext. intros r.
  f_equal. apply not_true_is_false. intros H.
  rewrite forallb_forall in H. specialize (H g Hin).
  unfold groupHolds in H.
  destruct (isRegexGroup g) eqn:Hg.
  - exact (termsOf_regex g Hg Ht).
  - unfold plainHolds in H. rewrite Ht in H. simpl flat_map in H.
    rewrite existsb_nil_inner in H. discriminate.
Qed.


(** ** The pass *)

(** C7. A pass returns with the rows of the body in the order they had,
    whichever of them matched. *)
Theorem pass_preserves_row_order (keywords : jsstring) (p : Page) :
  cache_ok (converters p) ->
  exists p',
    filterTitles keywords p = (p', inr tt)
    /\ map handle (tbody p') = map handle (tbody p)
    /\ map title (tbody p') = map title (tbody p).
Proof.
  intros Hok.
  destruct (filterTitles_pure keywords p Hok) as [p' [E [T _]]].
  exists p'. split; [exact E|]. rewrite T, !map_map. split; reflexivity.
Qed.

(** C8. The result of a pass depends on the rule and on the candidates
    only: two pages with the same candidates, whatever their rows'
    [display], cache and console, give the same result, and so does a
    second pass run after the first. *)
Theorem filterAll_deterministic (keywords : jsstring) (p q : Page) :
  cache_ok (converters p) ->
  cache_ok (converters q) ->
  candidates p = candidates q ->
  exists l,
    filterAll keywords p = inr l
    /\ filterAll keywords q = inr l
    /\ filterAll keywords (fst (filterTitles keywords p)) = inr l.
Proof.
  intros Hp Hq Hc.
  assert (Hcand : forall x y, candidates x = candidates y ->
    map (fun r => (handle r,
                   forallb (holds (forms (title r))) (filterGroupsOf keywords)))
      (tbody x)
    = map (fun r => (handle r,
                     forallb (holds (forms (title r))) (filterGroupsOf keywords)))
        (tbody y)).
  { intros x y Hxy.
    transitivity
      (map (fun c : nat * jsstring =>
              (fst c, forallb (holds (forms (snd c))) (filterGroupsOf keywords)))
         (candidates x)).
    - unfold candidates. rewrite map_map. reflexivity.
    - rewrite Hxy. unfold candidates. rewrite map_map. reflexivity. }
  destruct (filterTitles_pure keywords p Hp) as [p' [E [T Hp']]].
  rewrite E. simpl fst.
  rewrite (filterAll_pure keywords p Hp), (filterAll_pure keywords q Hq),
    (filterAll_pure keywords p' Hp').
  eexists. split; [reflexivity|]. split; f_equal; apply Hcand.
  - symmetry; exact Hc.
  - unfold candidates. rewrite T, map_map. reflexivity.
Qed.

End PureCapability.

(** ** The pass under any capability *)

Section AnyCapability.

Context {host : Host}.

Lemma preserves_filterRows X (f : Page -> X) (keywords : jsstring) :
  console_blind f -> tbody_blind f -> preserves f (filterRows keywords).
Proof.
  intros Hc Ht. unfold filterRows. frame.
Qed.

Lemma filterTitles_nonblank (keywords : jsstring) (p : Page) :
  truthy (trim keywords) = true ->
  filterTitles keywords p = filterRows keywords (fst (initConverters p)).
Proof.
  intros H. unfold filterTitles.
  rewrite H, (truthy_trim _ H). simpl.
  rewrite (bind_value _ _ _ _ _ _ (initConverters_returns p)). reflexivity.
Qed.

(** A call either leaves the cache and the count of constructions as
    they are, or finds a null in the cache and constructs both
    directions. *)
Lemma perform_cache (c : Call) (p : Page) :
  (converters (perform c p) = converters p
   /\ constructed (perform c p) = constructed p)
  \/ (is_null (toTraditional (converters p))
      || is_null (toSimplified (converters p)) = true
      /\ converters (perform c p) =
         {| toTraditional :=
              Some {| conv_id := constructed p; conv_from := cn; conv_to := twp |};
            toSimplified :=
              Some {| conv_id := S (constructed p); conv_from := tw; conv_to := cn |} |}
      /\ constructed (perform c p) = S (S (constructed p))).
Proof.
  assert (Hinit : forall q,
    (converters q = converters (fst (initConverters p))
     /\ constructed q = constructed (fst (initConverters p))) ->
    (converters q = converters p /\ constructed q = constructed p)
    \/ (is_null (toTraditional (converters p))
        || is_null (toSimplified (converters p)) = true
        /\ converters q =
           {| toTraditional :=
                Some {| conv_id := constructed p; conv_from := cn; conv_to := twp |};
              toSimplified :=
                Some {| conv_id := S (constructed p); conv_from := tw; conv_to := cn |} |}
        /\ constructed q = S (S (constructed p)))).
  { intros q [Hc Hn].
    destruct (is_null (toTraditional (converters p))
              || is_null (toSimplified (converters p))) eqn:E.
    - right. rewrite (initConverters_constructs _ E) in Hc, Hn. auto.
    - left. rewrite (initConverters_reuses _ E) in Hc, Hn. auto. }
  destruct c as [|keywords]; simpl.
  - apply Hinit. auto.
  - unfold filterTitles.
    destruct (negb (truthy keywords) || negb (truthy (trim keywords))) eqn:E.
    + left. split; reflexivity.
    + apply Hinit.
      rewrite (bind_value _ _ _ _ _ _ (initConverters_returns p)).
      split.
      * apply (preserves_filterRows _ converters keywords
                 converters_console_blind converters_tbody_blind).
      * apply (preserves_filterRows _ constructed keywords
                 constructed_console_blind constructed_tbody_blind).
Qed.

Lemma performAll_snoc (cs : list Call) (c : Call) (p : Page) :
  performAll (cs ++ [c]) p = perform c (performAll cs p).
Proof. unfold performAll. rewrite fold_left_app. reflexivity. Qed.

Lemma performAll_app (cs1 cs2 : list Call) (p : Page) :
  performAll (cs1 ++ cs2) p = performAll cs2 (performAll cs1 p).
Proof. unfold performAll. apply fold_left_app. Qed.

(** Once both directions are cached, no call changes the cache. *)
Lemma performAll_keeps (cs : list Call) (p : Page) :
  is_null (toTraditional (converters p))
  || is_null (toSimplified (converters p)) = false ->
  converters (performAll cs p) = converters p
  /\ constructed (performAll cs p) = constructed p.
Proof.
  intros H. induction cs as [|c cs IH] using rev_ind; [split; reflexivity|].
  rewrite performAll_snoc. destruct IH as [Hc Hn].
  destruct (perform_cache c (performAll cs p)) as [[Ec En]|[E _]].
  - rewrite Ec, En. auto.
  - rewrite Hc, H in E. discriminate.
Qed.

Lemma performAll_from_start (cs : list Call) (rows : list Row) :
  (converters (performAll cs (initial_page rows)) = emptyCache
   /\ constructed (performAll cs (initial_page rows)) = 0)
  \/ (converters (performAll cs (initial_page rows)) = firstInstances
      /\ constructed (performAll cs (initial_page rows)) = 2).
Proof.
  induction cs as [|c cs IH] using rev_ind; [left; split; reflexivity|].
  rewrite performAll_snoc.
  destruct (perform_cache c (performAll cs (initial_page rows)))
    as [[Ec En]|[E [Ec En]]].
  - rewrite Ec, En. exact IH.
  - destruct IH as [[Hc Hn]|[Hc Hn]].
    + right. rewrite Ec, En, Hn. split; reflexivity.
    + rewrite Hc in E. discriminate.
Qed.

(** A conversion that throws on the text makes [variantsOf] throw. *)
Lemma variantsOf_throws (s : jsstring) (p : Page) :
  initialized (converters p) ->
  (exists e, OpenCC_Converter cn twp s = inl e)
  \/ (exists e, OpenCC_Converter tw cn s = inl e) ->
  exists e, snd (variantsOf s p) = inl e.
Proof.
  intros [a [b [Ea [Eb [[Fa Ta] [Fb Tb]]]]]] H.
  unfold variantsOf, call, bind, get. rewrite Ea, Fa, Ta.
  destruct (OpenCC_Converter cn twp s) as [e|v] eqn:EA.
  - exists e. reflexivity.
  - destruct H as [[e H]|[e H]]; [discriminate|].
    unfold ret at 1. rewrite Eb, Fb, Tb, H. exists e. reflexivity.
Qed.

Lemma processRows_throws (gs : list jsstring) (rows fragment : list Row)
  (r : Row) (p : Page) :
  initialized (converters p) ->
  In r rows ->
  (exists e, OpenCC_Converter cn twp (title r) = inl e)
  \/ (exists e, OpenCC_Converter tw cn (title r) = inl e) ->
  exists e, snd (processRows gs rows fragment p) = inl e.
Proof.
  intros Hp Hin Hr. revert fragment p Hp.
  induction rows as [|x rows IH]; intros fragment p Hp; [contradiction|].
  simpl processRows.
  destruct (snd (processRow gs x p)) as [e|x'] eqn:E.
  - exists e. rewrite (bind_throw _ _ _ _ _ _ E). reflexivity.
  - rewrite (bind_value _ _ _ _ _ _ E).
    destruct Hin as [->|Hin].
    + exfalso. unfold processRow in E.
      destruct (variantsOf_throws (title r) p Hp Hr) as [e He].
      rewrite (bind_throw _ _ _ _ _ _ He) in E. discriminate.
    + apply (IH Hin).
      rewrite (preserves_processRow _ _ gs x converters_console_blind p).
      exact Hp.
Qed.

(** C9. The first [initConverters] of the process constructs the two
    directions; a later one, finding both cached, changes nothing; and
    whatever the script calls from its start, the cache is either still
    empty or holds those first two instances, two constructions having
    been made in all: it is written once at most. *)
Theorem converters_constructed_once (rows : list Row) (cs cs' : list Call) :
  initConverters (initial_page rows) =
  (with_converters firstInstances (with_constructed 2 (initial_page rows)),
   inr tt)
  /\ (forall p a b,
        toTraditional (converters p) = Some a ->
        toSimplified (converters p) = Some b ->
        initConverters p = (p, inr tt))
  /\ ((converters (performAll cs (initial_page rows)) = emptyCache
       /\ constructed (performAll cs (initial_page rows)) = 0)
      \/ (converters (performAll cs (initial_page rows)) = firstInstances
          /\ constructed (performAll cs (initial_page rows)) = 2))
  /\ (converters (performAll cs (initial_page rows)) = firstInstances ->
      converters (performAll (cs ++ cs') (initial_page rows)) = firstInstances
      /\ constructed (performAll (cs ++ cs') (initial_page rows)) = 2).
Proof.
  split; [reflexivity|]. split; [|split].
  - intros p a b Ha Hb. apply initConverters_reuses. rewrite Ha, Hb. reflexivity.
  - apply performAll_from_start.
  - intros H. rewrite performAll_app.
    destruct (performAll_keeps cs' (performAll cs (initial_page rows)))
      as [Hc Hn]; [rewrite H; reflexivity|].
    rewrite Hc, Hn. split; [exact H|].
    destruct (performAll_from_start cs rows) as [[E _]|[_ E]]; [|exact E].
    rewrite H in E. discriminate.
Qed.

(** C10. A pass with a rule that is not blank is not atomic: when the
    conversion throws on the title of some row, the pass throws, and the
    body it leaves behind is empty, the rows processed before the failure
    included. *)
Theorem failed_conversion_leaves_body_empty (keywords : jsstring) (p : Page)
  (r : Row) :
  cache_ok (converters p) ->
  truthy (trim keywords) = true ->
  In r (tbody p) ->
  (exists e, OpenCC_Converter cn twp (title r) = inl e)
  \/ (exists e, OpenCC_Converter tw cn (title r) = inl e) ->
  exists e p', filterTitles keywords p = (p', inl e) /\ tbody p' = [].
Proof.
  intros Hok Hk Hin Hr.
  rewrite (filterTitles_nonblank keywords p Hk).
  pose proof (initConverters_initialized p Hok) as Hi.
  pose proof (preserves_initConverters _ _ tbody_cache_blind p) as Ht.
  set (p1 := fst (initConverters p)) in *.
  unfold filterRows, bind at 1, get at 1.
  unfold bind at 1.
  rewrite (forEach_removeChild (tbody p1) [] p1) by (symmetry; apply app_nil_r).
  rewrite <- Ht in Hin.
  destruct (processRows_throws (filterGroupsOf keywords) (tbody p1) [] r
              (with_tbody [] p1) Hi Hin Hr) as [e He].
  rewrite (bind_throw _ _ _ _ _ _ He).
  do 2 eexists. split; [reflexivity|].
  apply (preserves_processRows _ _ (filterGroupsOf keywords) (tbody p1) []
           tbody_console_blind (with_tbody [] p1)).
Qed.

End AnyCapability.

(** ** The stand-ins at work *)

Section StandInFacts.

Import StandIn.

Lemma pure_convA (s : jsstring) :
  @OpenCC_Converter pureHost cn twp s = inr (convertA s).
Proof. reflexivity. Qed.

Lemma pure_convB (s : jsstring) :
  @OpenCC_Converter pureHost tw cn s = inr (convertB s).
Proof. reflexivity. Qed.

Lemma start_cache_ok (rows : list Row) :
  cache_ok (converters (initial_page rows)).
Proof. intros a b H. discriminate. Qed.

Lemma ready_initialized : initialized (converters ready).
Proof. do 2 eexists. repeat split; reflexivity. Qed.

Lemma readyHidden_cache_ok : cache_ok (converters readyHidden).
Proof. apply initialized_cache_ok. exact ready_initialized. Qed.

(** The term in traditional script is not in the first title of the
    listing, which is in simplified script; the pass shows that row all the
    same. *)
Example term_matches_through_conversion :
  includes (lower (title firstRow))
    (lower [jian_t; ti_t]) = false
  /\ @filterAll pureHost [jian_t; ti_t] (initial_page listing)
     = inr [(1, true); (2, false); (3, false)].
Proof. split; reflexivity. Qed.



Lemma blank_rule_shows_every_row_witness :
  @filterAll pureHost (js " ;" ++ [Ch.fullwidth_semicolon] ++ js " ")
    (initial_page listing)
  = inr [(1, true); (2, true); (3, true)].
Proof.
  apply (@blank_rule_shows_every_row pureHost convertA convertB
           pure_convA pure_convB
           (js " ;" ++ [Ch.fullwidth_semicolon] ++ js " ")
           (initial_page listing) (start_cache_ok listing)
           (or_introl eq_refl)).
Defined.

Lemma and_groups_independent_witness :
  exists l1 l2,
    @filterAll pureHost (js "hevc|X265") (initial_page listing) = inr l1
    /\ @filterAll pureHost [jian_t; ti_t] (initial_page listing) = inr l2
    /\ map fst l1 = map handle (tbody (initial_page listing))
    /\ map fst l2 = map handle (tbody (initial_page listing))
    /\ @filterAll pureHost (js "hevc|X265" ++ Ch.semicolon :: [jian_t; ti_t])
         (initial_page listing) = inr (both l1 l2)
    /\ @filterAll pureHost ([jian_t; ti_t] ++ Ch.semicolon :: js "hevc|X265")
         (initial_page listing)
       = @filterAll pureHost (js "hevc|X265" ++ Ch.semicolon :: [jian_t; ti_t])
           (initial_page listing)
    /\ @filterAll pureHost
         (js "hevc|X265" ++ Ch.fullwidth_semicolon :: [jian_t; ti_t])
         (initial_page listing)
       = @filterAll pureHost (js "hevc|X265" ++ Ch.semicolon :: [jian_t; ti_t])
           (initial_page listing).
Proof.
  exact (@and_groups_independent pureHost convertA convertB
           pure_convA pure_convB (js "hevc|X265") [jian_t; ti_t]
           (initial_page listing) (start_cache_ok listing)).
Defined.

Lemma plain_group_matches_any_variant_pair_witness :
  includes (lower (title firstRow)) (lower [jian_t; ti_t]) = false
  /\ exists r',
      @processRow pureHost [js "zzz | " ++ [jian_t; ti_t] ++ js " "]
        firstRow ready
      = (ready, inr r')
      /\ visible r' = true.
Proof.
  split; [reflexivity|].
  assert (Hparts : Forall (fun part => ~ In Ch.pipe part)
                     [js "zzz "; js " " ++ [jian_t; ti_t] ++ js " "]).
  { constructor; [|constructor; [|constructor]];
      cbv; intros H;
      repeat (destruct H as [H|H]; [discriminate H|]); exact H. }
  assert (Hshape : forall body, body <> [] ->
            join [Ch.pipe] [js "zzz "; js " " ++ [jian_t; ti_t] ++ js " "]
            <> Ch.slash :: body ++ [Ch.slash]).
  { intros body _ H. discriminate H. }
  destruct (@plain_group_matches_any_variant_pair pureHost convertA convertB
              pure_convA pure_convB
              [js "zzz "; js " " ++ [jian_t; ti_t] ++ js " "] firstRow ready
              ready_initialized Hparts Hshape)
    as [r' [E [Hiff _]]].
  exists r'. split; [exact E|]. apply Hiff.
  exists (js " " ++ [jian_t; ti_t] ++ js " "), (js " "), [jian_t; ti_t],
    (js " "), [jian_s; ti_s], (lower (title firstRow)), (js "["),
    ([zi; mu] ++ js "] show hevc 01").
  repeat split; try reflexivity.
  - apply in_cons, in_eq.
  - right. right. reflexivity.
  - left. reflexivity.
Defined.

Lemma group_without_terms_hides_every_row_witness :
  filterGroupsOf (js "A;|;B") = [js "A"; js "|"; js "B"]
  /\ termsOf (js "|") = []
  /\ @filterAll pureHost (js "A;|;B") (initial_page listing)
     = inr [(1, false); (2, false); (3, false)].
Proof.
  split; [reflexivity|]. split; [reflexivity|].
  apply (@group_without_terms_hides_every_row pureHost convertA convertB
           pure_convA pure_convB (js "A;|;B") (js "|") (initial_page listing)
           (start_cache_ok listing) (or_intror (or_introl eq_refl)) eq_refl).
Defined.


Lemma pass_preserves_row_order_witness :
  exists p',
    @filterTitles pureHost (js "hevc") (initial_page listing) = (p', inr tt)
    /\ map handle (tbody p') = map handle (tbody (initial_page listing))
    /\ map title (tbody p') = map title (tbody (initial_page listing)).
Proof.
  exact (@pass_preserves_row_order pureHost convertA convertB
           pure_convA pure_convB (js "hevc") (initial_page listing)
           (start_cache_ok listing)).
Defined.

Lemma filterAll_deterministic_witness :
  candidates (initial_page listing) = candidates readyHidden
  /\ exists l,
      @filterAll pureHost (js "hevc") (initial_page listing) = inr l
      /\ @filterAll pureHost (js "hevc") readyHidden = inr l
      /\ @filterAll pureHost (js "hevc")
           (fst (@filterTitles pureHost (js "hevc") (initial_page listing)))
         = inr l.
Proof.
  split; [reflexivity|].
  exact (@filterAll_deterministic pureHost convertA convertB
           pure_convA pure_convB (js "hevc") (initial_page listing) readyHidden
           (start_cache_ok listing) readyHidden_cache_ok eq_refl).
Defined.

Lemma failed_conversion_leaves_body_empty_witness :
  truthy (trim (js "hevc")) = true
  /\ @OpenCC_Converter failingHost cn twp (title (row 4 [surrogate]))
     = inl (HostError 1)
  /\ exists e p',
      @filterTitles failingHost (js "hevc") (initial_page brokenListing)
      = (p', inl e)
      /\ tbody p' = [].
Proof.
  split; [reflexivity|]. split; [reflexivity|].
  apply (@failed_conversion_leaves_body_empty failingHost (js "hevc")
           (initial_page brokenListing) (row 4 [surrogate])
           (start_cache_ok brokenListing) eq_refl).
  - simpl. auto.
  - left. exists (HostError 1). reflexivity.
Defined.

End StandInFacts.

Section RuleLayoutOfPass.

Context {host : Host}.

Lemma blank_test (keywords : jsstring) :
  negb (truthy keywords) || negb (truthy (trim keywords))
  = negb (truthy (trim keywords)).
Proof.
  destruct keywords as [|c r]; [reflexivity|]. reflexivity.
Qed.

(** A pass sees of its rule only whether it is blank and its groups. *)
Lemma filterTitles_ext (k1 k2 : jsstring) (p : Page) :
  truthy (trim k1) = truthy (trim k2) ->
  filterGroupsOf k1 = filterGroupsOf k2 ->
  filterTitles k1 p = filterTitles k2 p.
Proof.
  intros Hb Hg. unfold filterTitles. rewrite !blank_test, Hb.
  unfold filterRows. rewrite Hg. reflexivity.
Qed.



Lemma trim_with_separator (a b : jsstring) (c : N) :
  isWhiteSpace c = false -> truthy (trim (a ++ c :: b)) = true.
Proof.
  intros Hc. destruct (trim (a ++ c :: b)) eqn:E; [|reflexivity].
  apply trim_nil in E. rewrite forallb_app in E. simpl in E.
  rewrite Hc, andb_false_r in E. discriminate.
Qed.

Lemma filterGroupsOf_ws_l (ws s : jsstring) :
  forallb isWhiteSpace ws = true ->
  filterGroupsOf (ws ++ s) = filterGroupsOf s.
Proof. apply (pieces_ws_l isAndSeparator separator_not_white). Qed.

Lemma filterGroupsOf_ws_r (s ws : jsstring) :
  forallb isWhiteSpace ws = true ->
  filterGroupsOf (s ++ ws) = filterGroupsOf s.
Proof. apply (pieces_ws_r isAndSeparator separator_not_white). Qed.


(** X1. White space at the two ends of a rule and on the two sides of a
    semicolon is ignored: the pass is the same as without it, on every
    page and for every host. *)
Theorem white_space_of_rule_ignored (ws1 ws2 ws3 ws4 a b : jsstring) (c : N)
  (p : Page) :
  forallb isWhiteSpace ws1 = true -> forallb isWhiteSpace ws2 = true ->
  forallb isWhiteSpace ws3 = true -> forallb isWhiteSpace ws4 = true ->
  isAndSeparator c = true ->
  filterTitles (ws1 ++ a ++ ws2) p = filterTitles a p
  /\ filterTitles ((ws1 ++ a ++ ws2) ++ c :: (ws3 ++ b ++ ws4)) p
     = filterTitles (a ++ c :: b) p.
Proof.
  intros H1 H2 H3 H4 Hc. split; apply filterTitles_ext.
  - rewrite (trim_ws_l ws1 _ H1), (trim_ws_r a ws2 H2). reflexivity.
  - rewrite (filterGroupsOf_ws_l ws1 _ H1), (filterGroupsOf_ws_r a ws2 H2).
    reflexivity.
  - rewrite !trim_with_separator by (apply separator_not_white; exact Hc).
    reflexivity.
  - rewrite !(fun x y => filterGroupsOf_app x y c Hc).
    rewrite (filterGroupsOf_ws_l ws1 _ H1), (filterGroupsOf_ws_r a ws2 H2).
    rewrite (filterGroupsOf_ws_l ws3 _ H3), (filterGroupsOf_ws_r b ws4 H4).
    reflexivity.
Qed.

(** X2. Two semicolons in a row are one: the empty group between them
    is dropped. *)
Theorem doubled_separator_is_one (a b : jsstring) (c c' : N) (p : Page) :
  isAndSeparator c = true -> isAndSeparator c' = true ->
  filterTitles (a ++ c :: c' :: b) p = filterTitles (a ++ c :: b) p.
Proof.
  intros Hc Hc'. apply filterTitles_ext.
  - rewrite !trim_with_separator by (apply separator_not_white; exact Hc).
    reflexivity.
  - rewrite !(fun x y => filterGroupsOf_app x y c Hc).
    rewrite (filterGroupsOf_app [] b c' Hc'
             : filterGroupsOf (c' :: b) = filterGroupsOf [] ++ filterGroupsOf b).
    reflexivity.
Qed.

(** X3. A semicolon before or after a rule that is not blank changes
    nothing. *)
Theorem outer_separator_ignored (keywords : jsstring) (c : N) (p : Page) :
  isAndSeparator c = true ->
  truthy (trim keywords) = true ->
  filterTitles (c :: keywords) p = filterTitles keywords p
  /\ filterTitles (keywords ++ [c]) p = filterTitles keywords p.
Proof.
  intros Hc Hk. split; apply filterTitles_ext.
  - rewrite Hk. apply (trim_with_separator [] keywords c).
    apply separator_not_white; exact Hc.
  - apply (filterGroupsOf_app [] keywords c Hc).
  - rewrite Hk. apply trim_with_separator.
    apply separator_not_white; exact Hc.
  - rewrite (filterGroupsOf_app keywords [] c Hc). apply app_nil_r.
Qed.


End RuleLayoutOfPass.

(** ** What a pass can do to the rows, under any capability *)

Section Outcomes.

Context {host : Host}.

Lemma processRow_result (gs : list jsstring) (r r' : Row) (p : Page) :
  snd (processRow gs r p) = inr r' ->
  handle r' = handle r /\ title r' = title r
  /\ (display r' = shown \/ display r' = hidden).
Proof.
  unfold processRow, bind.
  destruct (variantsOf (title r) p) as [q [e|tvs]]; simpl; [discriminate|].
  destruct (every (matchesGroup tvs) gs q) as [q' [e|b]]; simpl; [discriminate|].
  intros H. injection H as <-. destruct b; simpl; auto.
Qed.

Lemma processRows_result (gs : list jsstring) (rows fragment l : list Row)
  (p : Page) :
  snd (processRows gs rows fragment p) = inr l ->
  exists rows', l = fragment ++ rows' /\ same_rows rows' rows.
Proof.
  revert fragment p. induction rows as [|r rows IH]; intros fragment p; simpl.
  - intros H. injection H as <-. exists []. rewrite app_nil_r.
    repeat split; constructor.
  - destruct (snd (processRow gs r p)) as [e|r'] eqn:E.
    + rewrite (bind_throw _ _ _ _ _ _ E). discriminate.
    + rewrite (bind_value _ _ _ _ _ _ E). intros H.
      destruct (IH _ _ H) as [rows' [-> [Hh [Ht Hd]]]].
      destruct (processRow_result gs r r' p E) as [Eh [Et Ed]].
      exists (r' :: rows'). rewrite <- app_assoc. split; [reflexivity|].
      repeat split; simpl; try congruence. constructor; assumption.
Qed.

(** The two ways a pass ends. *)
Lemma filterTitles_outcome (keywords : jsstring) (p : Page) :
  (exists p', filterTitles keywords p = (p', inr tt)
              /\ same_rows (tbody p') (tbody p))
  \/ (exists p' e, filterTitles keywords p = (p', inl e)
                   /\ tbody p' = []
                   /\ truthy (trim keywords) = true).
Proof.
  destruct (truthy (trim keywords)) eqn:Hk.
  - rewrite (filterTitles_nonblank keywords p Hk).
    pose proof (preserves_initConverters _ _ tbody_cache_blind p) as Ht.
    set (p1 := fst (initConverters p)) in *.
    assert (Hrows : filterRows keywords p1
                    = bind (processRows (filterGroupsOf keywords) (tbody p1) [])
                        appendFragment (with_tbody [] p1)).
    { unfold filterRows, bind at 1, get at 1. unfold bind at 1.
      rewrite (forEach_removeChild (tbody p1) [] p1)
        by (symmetry; apply app_nil_r).
      reflexivity. }
    rewrite Hrows.
    pose proof (preserves_processRows _ _ (filterGroupsOf keywords) (tbody p1) []
                  tbody_console_blind (with_tbody [] p1)) as Hb.
    destruct (snd (processRows (filterGroupsOf keywords) (tbody p1) []
                     (with_tbody [] p1))) as [e|l] eqn:E.
    + right. rewrite (bind_throw _ _ _ _ _ _ E). do 2 eexists.
      split; [reflexivity|]. split; [exact Hb | reflexivity].
    + left. rewrite (bind_value _ _ _ _ _ _ E). eexists.
      split; [reflexivity|]. simpl. rewrite Hb. simpl.
      destruct (processRows_result _ _ _ _ _ E) as [rows' [-> H]].
      simpl. rewrite <- Ht. exact H.
  - left. unfold filterTitles. rewrite blank_test, Hk. eexists.
    split; [reflexivity|]. unfold same_rows. simpl. rewrite !map_map. simpl.
    repeat split. apply Forall_forall. intros r Hr.
    apply in_map_iff in Hr as [r0 [<- _]]. left. reflexivity.
Qed.


Lemma perform_rows (c : Call) (p : Page) :
  map handle (tbody (perform c p)) = map handle (tbody p)
  \/ tbody (perform c p) = [].
Proof.
  destruct c as [|keywords]; simpl.
  - left. rewrite (preserves_initConverters _ _ tbody_cache_blind p).
    reflexivity.
  - destruct (filterTitles_outcome keywords p)
      as [[p' [E [H _]]]|[p' [e [E [H _]]]]]; rewrite E; simpl; auto.
Qed.

(** X6. No call of the script adds, duplicates or reorders rows: after
    any sequence of calls the body has the handles it started with, in
    their order, or is empty; and a body once emptied stays empty, so that
    the rows a failed pass detached do not come back. *)
Theorem rows_kept_or_lost (cs cs' : list Call) (p : Page) :
  (map handle (tbody (performAll cs p)) = map handle (tbody p)
   \/ tbody (performAll cs p) = [])
  /\ (tbody (performAll cs p) = [] -> tbody (performAll (cs ++ cs') p) = []).
Proof.
  assert (Hempty : forall l q, tbody q = [] -> tbody (performAll l q) = []).
  { intros l. induction l as [|c l IH] using rev_ind; intros q Hq; [exact Hq|].
    rewrite performAll_snoc.
    destruct (perform_rows c (performAll l q)) as [H|H]; [|exact H].
    rewrite (IH q Hq) in H. simpl in H.
    destruct (tbody (perform c (performAll l q))); [reflexivity | discriminate]. }
  split.
  - induction cs as [|c cs IH] using rev_ind; [left; reflexivity|].
    rewrite performAll_snoc.
    destruct (perform_rows c (performAll cs p)) as [H|H]; [|right; exact H].
    destruct IH as [IH|IH].
    + left. rewrite H. exact IH.
    + right. rewrite IH in H. simpl in H.
      destruct (tbody (perform c (performAll cs p))); [reflexivity | discriminate].
  - intros H. rewrite performAll_app. apply Hempty. exact H.
Qed.

End Outcomes.

(** ** The console and the cache in a pass *)

Section ConsoleAndCache.

Context {host : Host}.

Lemma console_tbody_blind : tbody_blind console.
Proof. intros l p; reflexivity. Qed.

Lemma preserves_every_in {X A} (f : Page -> X) (g : A -> M bool) (l : list A) :
  (forall a, In a l -> preserves f (g a)) -> preserves f (every g l).
Proof.
  induction l as [|x xs IH]; intros Hg; simpl; [apply preserves_ret|].
  apply preserves_bind; [apply Hg; left; reflexivity|].
  intros [|]; [apply IH; intros a Ha; apply Hg; right; exact Ha
              | apply preserves_ret].
Qed.

Lemma matchesGroup_quiet (tvs : list jsstring) (g : jsstring) :
  (isRegexGroup g = true -> RegExp (slice g 1 (-1)) (js "i") <> None) ->
  preserves console (matchesGroup tvs g).
Proof.
  intros H. unfold matchesGroup. destruct (isRegexGroup g).
  - destruct (RegExp _ _); [apply preserves_ret|].
    exfalso. apply H; reflexivity.
  - apply preserves_bind.
    + apply preserves_flatMap. intros a. apply preserves_variantsOf.
    + intros vs. apply preserves_ret.
Qed.

Lemma processRows_quiet (gs : list jsstring) (rows fragment : list Row) :
  (forall g, In g gs -> isRegexGroup g = true ->
             RegExp (slice g 1 (-1)) (js "i") <> None) ->
  preserves console (processRows gs rows fragment).
Proof.
  intros H. revert fragment.
  induction rows as [|r rows IH]; intros fragment; simpl;
    [apply preserves_ret|].
  apply preserves_bind; [|intros r'; apply IH].
  unfold processRow.
  apply preserves_bind; [apply preserves_variantsOf|]. intros tvs.
  apply preserves_bind; [|intros b; apply preserves_ret].
  apply preserves_every_in. intros g Hg. apply matchesGroup_quiet.
  exact (H g Hg).
Qed.

(** The body of a pass once the rows are detached. *)
Lemma filterRows_detached (keywords : jsstring) (p : Page) :
  filterRows keywords p
  = bind (processRows (filterGroupsOf keywords) (tbody p) []) appendFragment
      (with_tbody [] p).
Proof.
  unfold filterRows, bind at 1, get at 1. unfold bind at 1.
  rewrite (forEach_removeChild (tbody p) [] p) by (symmetry; apply app_nil_r).
  reflexivity.
Qed.

(** X7. A pass whose regex groups all compile writes nothing to the
    console, whether it returns or throws. *)
Theorem valid_rule_is_silent (keywords : jsstring) (p : Page) :
  (forall g, In g (filterGroupsOf keywords) -> isRegexGroup g = true ->
             RegExp (slice g 1 (-1)) (js "i") <> None) ->
  console (fst (filterTitles keywords p)) = console p.
Proof.
  intros H. unfold filterTitles.
  destruct (negb (truthy keywords) || negb (truthy (trim keywords)));
    [reflexivity|].
  rewrite (bind_value _ _ _ _ _ _ (initConverters_returns p)).
  rewrite filterRows_detached.
  rewrite (preserves_bind _ _ _ console
             (processRows (filterGroupsOf keywords)
                (tbody (fst (initConverters p))) [])
             appendFragment).
  - simpl. apply (preserves_initConverters _ _ console_cache_blind).
  - apply processRows_quiet. exact H.
  - intros l. apply preserves_appendFragment. exact console_tbody_blind.
Qed.



End ConsoleAndCache.

(** ** More on a pass under a pure capability *)

Section PureCapabilityMore.

Context {host : Host}.

Variables toVariantA toVariantB : jsstring -> jsstring.

Hypothesis convA : forall s, OpenCC_Converter cn twp s = inr (toVariantA s).
Hypothesis convB : forall s, OpenCC_Converter tw cn s = inr (toVariantB s).

Local Notation "'forms'" := (variantForms toVariantA toVariantB).
Local Notation "'holds'" := (groupHolds toVariantA toVariantB).

Lemma existsb_orb {A} (f g : A -> bool) (l : list A) :
  existsb (fun x => f x || g x) l = existsb f l || existsb g l.
Proof.
  induction l as [|x l IH]; simpl; [reflexivity|]. rewrite IH.
  destruct (f x), (g x), (existsb f l), (existsb g l); reflexivity.
Qed.

Lemma existsb_pointwise {A} (f g : A -> bool) (l : list A) :
  (forall x, f x = g x) -> existsb f l = existsb g l.
Proof.
  intros H. induction l as [|x l IH]; simpl; [reflexivity|].
  rewrite H, IH. reflexivity.
Qed.

Lemma termsOf_app (a b : jsstring) :
  termsOf (a ++ Ch.pipe :: b) = termsOf a ++ termsOf b.
Proof.
  unfold termsOf.
  rewrite (split_app isPipe a b Ch.pipe eq_refl), map_app, filter_app.
  reflexivity.
Qed.

Lemma plainHolds_app (tvs : list jsstring) (a b : jsstring) :
  plainHolds toVariantA toVariantB tvs (a ++ Ch.pipe :: b)
  = plainHolds toVariantA toVariantB tvs a
    || plainHolds toVariantA toVariantB tvs b.
Proof.
  unfold plainHolds, some. rewrite termsOf_app, flat_map_app.
  rewrite <- existsb_orb.
  apply existsb_pointwise. intros tv. apply existsb_app.
Qed.

Lemma processRow_plain (g : jsstring) (r : Row) (p : Page) :
  initialized (converters p) -> isRegexGroup g = false ->
  processRow [g] r p
  = (p, inr (set_display
               (if plainHolds toVariantA toVariantB (forms (title r)) g
                then shown else hidden) r)).
Proof.
  intros Hp Hg.
  destruct (processRow_single_pure toVariantA toVariantB convA convB g r p Hp)
    as [p' [E ->]].
  rewrite E, (matchesGroup_plain_state toVariantA toVariantB convA convB
                _ g p Hp Hg).
  unfold groupHolds. rewrite Hg. reflexivity.
Qed.

(** X9. The pipe is an OR: when neither side nor the whole is a regex
    group, the per-row callback shows the row for the group [a|b] iff it
    shows it for [a] or for [b]. *)
Theorem pipe_is_or (a b : jsstring) (r : Row) (p : Page) :
  initialized (converters p) ->
  isRegexGroup a = false -> isRegexGroup b = false ->
  isRegexGroup (a ++ Ch.pipe :: b) = false ->
  exists ra rb rab,
    processRow [a] r p = (p, inr ra)
    /\ processRow [b] r p = (p, inr rb)
    /\ processRow [a ++ Ch.pipe :: b] r p = (p, inr rab)
    /\ visible rab = visible ra || visible rb.
Proof.
  intros Hp Ha Hb Hab.
  rewrite (processRow_plain a r p Hp Ha), (processRow_plain b r p Hp Hb).
  do 3 eexists. split; [reflexivity|]. split; [reflexivity|].
  split; [exact (processRow_plain _ r p Hp Hab)|].
  rewrite !visible_set_display. apply plainHolds_app.
Qed.

(** X10. The rows are judged one by one: the result of a pass over a
    body is the result over its first rows followed by the result over
    the others. *)
Theorem rows_judged_independently (keywords : jsstring) (l1 l2 : list Row)
  (p : Page) :
  cache_ok (converters p) ->
  exists r1 r2,
    filterAll keywords (with_tbody l1 p) = inr r1
    /\ filterAll keywords (with_tbody l2 p) = inr r2
    /\ filterAll keywords (with_tbody (l1 ++ l2) p) = inr (r1 ++ r2).
Proof.
  intros Hok.
  rewrite !(fun l => filterAll_pure toVariantA toVariantB convA convB
                       keywords (with_tbody l p) Hok).
  do 2 eexists. split; [reflexivity|]. split; [reflexivity|].
  simpl. rewrite map_app. reflexivity.
Qed.

Lemma processRows_warnings (g : jsstring) (rows fragment : list Row)
  (p : Page) :
  initialized (converters p) ->
  isRegexGroup g = true ->
  RegExp (slice g 1 (-1)) (js "i") = None ->
  console (fst (processRows [g] rows fragment p))
  = console p ++ repeat g (List.length rows).
Proof.
  intros Hp Hg Hre. revert fragment p Hp.
  induction rows as [|r rows IH]; intros fragment p Hp; simpl processRows.
  - simpl. symmetry. apply app_nil_r.
  - destruct (processRow_single_pure toVariantA toVariantB convA convB g r p Hp)
      as [p' [E Ep]].
    unfold bind at 1. rewrite E, IH.
    + rewrite Ep. unfold matchesGroup. rewrite Hg, Hre. simpl.
      rewrite <- app_assoc. reflexivity.
    + rewrite Ep, (preserves_matchesGroup _ _ _ g converters_console_blind p).
      exact Hp.
Qed.

(** X11. The warning for a regex group that does not compile is
    written once for each row, not once for the pass: with such a group
    as the only group of the rule, a pass over [n] rows appends [n] copies
    of the group to the console. *)
Theorem invalid_regex_warned_per_row (keywords g : jsstring) (p : Page) :
  cache_ok (converters p) ->
  filterGroupsOf keywords = [g] ->
  isRegexGroup g = true ->
  RegExp (slice g 1 (-1)) (js "i") = None ->
  console (fst (filterTitles keywords p))
  = console p ++ repeat g (List.length (tbody p)).
Proof.
  intros Hok Hgs Hg Hre.
  assert (Hk : truthy (trim keywords) = true).
  { destruct (trim keywords) eqn:E; [|reflexivity].
    rewrite (filterGroupsOf_trim_nil keywords E) in Hgs. discriminate. }
  rewrite (filterTitles_nonblank keywords p Hk), filterRows_detached, Hgs.
  pose proof (initConverters_initialized p Hok) as Hi.
  pose proof (preserves_initConverters _ _ tbody_cache_blind p) as Ht.
  pose proof (preserves_initConverters _ _ console_cache_blind p) as Hcon.
  set (p1 := fst (initConverters p)) in *.
  rewrite (bind_value _ _ _ _ _ _
             (processRows_pure toVariantA toVariantB convA convB
                [g] (tbody p1) [] (with_tbody [] p1) Hi)).
  simpl. rewrite (processRows_warnings g (tbody p1) [] (with_tbody [] p1) Hi Hg Hre).
  simpl. rewrite Hcon, Ht. reflexivity.
Qed.

End PureCapabilityMore.

(** ** The filter box *)

Section FilterBoxFacts.

Context {host : Host}.

Local Notation "'swap'" := replaceSemicolon.

Lemma swap_white (c : N) : isWhiteSpace (swap c) = isWhiteSpace c.
Proof.
  unfold replaceSemicolon. destruct (c =? Ch.semicolon)%N eqn:E; [|reflexivity].
  apply N.eqb_eq in E. subst. reflexivity.
Qed.

Lemma swap_separator (c : N) : isAndSeparator (swap c) = isAndSeparator c.
Proof.
  unfold replaceSemicolon. destruct (c =? Ch.semicolon)%N eqn:E; [|reflexivity].
  apply N.eqb_eq in E. subst. reflexivity.
Qed.

Lemma swap_group_unit (c : N) : isAndSeparator c = false -> swap c = c.
Proof.
  unfold replaceSemicolon, isAndSeparator. intros H. apply orb_false_iff in H as [H _].
  rewrite H. reflexivity.
Qed.

Lemma trimStart_swap (s : jsstring) :
  trimStart (map swap s) = map swap (trimStart s).
Proof.
  induction s as [|c s IH]; simpl; [reflexivity|].
  rewrite swap_white. destruct (isWhiteSpace c); [exact IH | reflexivity].
Qed.

Lemma trim_swap (s : jsstring) : trim (map swap s) = map swap (trim s).
Proof.
  unfold trim, trimEnd.
  rewrite trimStart_swap, <- map_rev, trimStart_swap, map_rev. reflexivity.
Qed.

(** The pieces between semicolons are the same after the replacement. *)
Lemma split_swap (s : jsstring) :
  split isAndSeparator (map swap s) = split isAndSeparator s.
Proof.
  induction s as [|c s IH]; simpl; [reflexivity|].
  rewrite swap_separator, IH.
  destruct (isAndSeparator c) eqn:E; [reflexivity|].
  rewrite (swap_group_unit c E). reflexivity.
Qed.

(** X12. The replacement of the semicolons that the timer's callback
    writes back to the box leaves no ASCII semicolon, and the text it
    writes is the same rule as the text the pass was run with: a pass with
    either is the same, on every page and for every host. *)
Theorem replaced_semicolons_same_rule (value : jsstring) (p : Page) :
  ~ In Ch.semicolon (replaceSemicolons value)
  /\ List.length (replaceSemicolons value) = List.length value
  /\ filterTitles (replaceSemicolons value) p = filterTitles value p.
Proof.
  split; [|split].
  - unfold replaceSemicolons. intros H. apply in_map_iff in H as [c [H _]].
    unfold replaceSemicolon in H.
    destruct (c =? Ch.semicolon)%N eqn:E; [discriminate|].
    apply N.eqb_neq in E. congruence.
  - apply length_map.
  - apply filterTitles_ext.
    + change (replaceSemicolons value) with (map swap value).
      rewrite trim_swap. destruct (trim value); reflexivity.
    + unfold filterGroupsOf.
      change (replaceSemicolons value) with (map swap value).
      rewrite split_swap. reflexivity.
Qed.

Lemma onInput_sets (ui : UI) :
  one_timer ui ->
  timers (onInput ui) = [next_timer ui]
  /\ debounceTimer (onInput ui) = Some (next_timer ui)
  /\ page (onInput ui) = page ui
  /\ input_value (onInput ui) = input_value ui.
Proof.
  intros [H|[id [H D]]]; unfold onInput, setDebounceTimer, clearTimeout.
  - destruct (debounceTimer ui); simpl; rewrite H; auto.
  - rewrite D. simpl. rewrite H. simpl. rewrite Nat.eqb_refl. simpl. auto.
Qed.

Lemma step_one_timer (ui : UI) (ev : Event) :
  one_timer ui -> one_timer (step ui ev).
Proof.
  intros H. destruct ev as [v|id]; simpl.
  - right. exists (next_timer ui).
    assert (Hv : one_timer (set_input_value v ui)) by exact H.
    destruct (onInput_sets _ Hv) as [T [D _]]. auto.
  - destruct (existsb (Nat.eqb id) (timers ui)) eqn:E; [|exact H].
    left. destruct H as [H|[id' [H D]]]; simpl; rewrite H in *;
      [discriminate|].
    simpl in E. rewrite orb_false_r in E. apply Nat.eqb_eq in E. subst.
    simpl. rewrite Nat.eqb_refl. reflexivity.
Qed.

Lemma run_one_timer (evs : list Event) (ui : UI) :
  one_timer ui -> one_timer (run evs ui).
Proof.
  revert ui. induction evs as [|ev evs IH]; intros ui H; [exact H|].
  apply IH. apply step_one_timer. exact H.
Qed.

Lemma run_snoc (evs : list Event) (ev : Event) (ui : UI) :
  run (evs ++ [ev]) ui = step (run evs ui) ev.
Proof. unfold run. rewrite fold_left_app. reflexivity. Qed.

(** X13. The listener keeps at most one timer waiting: after any
    sequence of edits and elapsed delays, either no timer is pending or
    exactly one is, the one [debounceTimer] holds. *)
Theorem at_most_one_timer_pending (evs : list Event) (p : Page) :
  timers (run evs (initial_ui p)) = []
  \/ exists id,
       timers (run evs (initial_ui p)) = [id]
       /\ debounceTimer (run evs (initial_ui p)) = Some id.
Proof.
  induction evs as [|ev evs IH] using rev_ind; [left; reflexivity|].
  rewrite run_snoc. apply step_one_timer. exact IH.
Qed.

Lemma edits_keep_page (vs : list jsstring) (ui : UI) :
  one_timer ui -> page (run (map Edit vs) ui) = page ui.
Proof.
  revert ui. induction vs as [|v vs IH]; intros ui H; [reflexivity|].
  simpl. rewrite IH by (apply (step_one_timer ui (Edit v)); exact H).
  simpl. assert (Hv : one_timer (set_input_value v ui)) by exact H.
  destruct (onInput_sets _ Hv) as [_ [_ [P _]]]. exact P.
Qed.

Lemma onTimeout_value (ui : UI) :
  input_value (onTimeout ui) = replaceSemicolons (input_value ui).
Proof.
  unfold onTimeout. simpl.
  destruct (list_eq_dec N.eq_dec (input_value ui)
              (replaceSemicolons (input_value ui))) as [E|E];
    [exact E | reflexivity].
Qed.

(** X14. The edits are debounced: after a burst of edits, whatever
    happened before, no pass has been run for any of them and exactly one
    timer waits; when its delay is over, one pass is run, with the text of
    the last edit, and the box shows that text with its semicolons
    replaced; the delay of any other timer being over does nothing. *)
Theorem burst_of_edits_runs_one_pass (evs : list Event) (vs : list jsstring)
  (v : jsstring) (p : Page) :
  exists id,
    timers (run (map Edit (vs ++ [v])) (run evs (initial_ui p))) = [id]
    /\ page (run (map Edit (vs ++ [v])) (run evs (initial_ui p)))
       = page (run evs (initial_ui p))
    /\ page (step (run (map Edit (vs ++ [v])) (run evs (initial_ui p)))
               (Elapse id))
       = fst (filterTitles v (page (run evs (initial_ui p))))
    /\ input_value (step (run (map Edit (vs ++ [v])) (run evs (initial_ui p)))
                      (Elapse id))
       = replaceSemicolons v
    /\ timers (step (run (map Edit (vs ++ [v])) (run evs (initial_ui p)))
                 (Elapse id)) = []
    /\ forall id', id' <> id ->
         step (run (map Edit (vs ++ [v])) (run evs (initial_ui p)))
           (Elapse id')
         = run (map Edit (vs ++ [v])) (run evs (initial_ui p)).
Proof.
  assert (H0 : one_timer (run evs (initial_ui p))).
  { apply run_one_timer. left. reflexivity. }
  set (ui0 := run evs (initial_ui p)) in *.
  pose proof (edits_keep_page (vs ++ [v]) ui0 H0) as Hpage.
  rewrite map_app in *. simpl map in *. rewrite run_snoc in *.
  pose proof (run_one_timer (map Edit vs) ui0 H0) as H1.
  set (ui1 := run (map Edit vs) ui0) in *.
  assert (Hv : one_timer (set_input_value v ui1)) by exact H1.
  destruct (onInput_sets _ Hv) as [T [D [P V]]].
  exists (next_timer ui1). simpl step at 1 2.
  split; [exact T|]. split; [exact Hpage|].
  assert (Hfire : step (onInput (set_input_value v ui1)) (Elapse (next_timer ui1))
                  = onTimeout
                      {| page := page (onInput (set_input_value v ui1));
                         input_value := input_value (onInput (set_input_value v ui1));
                         debounceTimer := debounceTimer (onInput (set_input_value v ui1));
                         timers := [];
                         next_timer := next_timer (onInput (set_input_value v ui1)) |}).
  { unfold step. rewrite T. simpl. rewrite Nat.eqb_refl. reflexivity. }
  change (step ui1 (Edit v)) with (onInput (set_input_value v ui1)) in *.
  rewrite Hfire. split; [|split; [|split]].
  - unfold onTimeout. cbv zeta. cbn [page input_value].
    rewrite V, Hpage. reflexivity.
  - rewrite onTimeout_value. cbn [input_value]. rewrite V. reflexivity.
  - reflexivity.
  - intros id' Hid. unfold step. rewrite T. simpl.
    destruct (id' =? next_timer ui1) eqn:E; [|reflexivity].
    apply Nat.eqb_eq in E. contradiction.
Qed.

End FilterBoxFacts.

(** ** The stand-ins at work, continued *)

Section StandInFactsMore.

Import StandIn.

Lemma white_space_of_rule_ignored_witness :
  @filterTitles pureHost (js " " ++ js "hevc" ++ js "  ") (initial_page listing)
  = @filterTitles pureHost (js "hevc") (initial_page listing)
  /\ @filterTitles pureHost
       ((js " " ++ js "hevc" ++ js "  ")
        ++ Ch.fullwidth_semicolon :: (js " " ++ js "01" ++ js " "))
       (initial_page listing)
     = @filterTitles pureHost (js "hevc" ++ Ch.fullwidth_semicolon :: js "01")
         (initial_page listing).
Proof.
  exact (@white_space_of_rule_ignored pureHost (js " ") (js "  ") (js " ")
           (js " ") (js "hevc") (js "01") Ch.fullwidth_semicolon
           (initial_page listing) eq_refl eq_refl eq_refl eq_refl eq_refl).
Defined.

Lemma doubled_separator_is_one_witness :
  @filterTitles pureHost (js "hevc" ++ Ch.semicolon :: Ch.fullwidth_semicolon :: js "01")
    (initial_page listing)
  = @filterTitles pureHost (js "hevc" ++ Ch.semicolon :: js "01")
      (initial_page listing).
Proof.
  exact (@doubled_separator_is_one pureHost (js "hevc") (js "01") Ch.semicolon
           Ch.fullwidth_semicolon (initial_page listing) eq_refl eq_refl).
Defined.

Lemma outer_separator_ignored_witness :
  @filterTitles pureHost (Ch.semicolon :: js "hevc") (initial_page listing)
  = @filterTitles pureHost (js "hevc") (initial_page listing)
  /\ @filterTitles pureHost (js "hevc" ++ [Ch.semicolon]) (initial_page listing)
     = @filterTitles pureHost (js "hevc") (initial_page listing).
Proof.
  exact (@outer_separator_ignored pureHost (js "hevc") Ch.semicolon
           (initial_page listing) eq_refl eq_refl).
Defined.

Lemma valid_rule_is_silent_witness :
  filterGroupsOf (js "01;/hevc/") = [js "01"; js "/hevc/"]
  /\ console (fst (@filterTitles pureHost (js "01;/hevc/") (initial_page listing)))
     = console (initial_page listing).
Proof.
  split; [reflexivity|].
  apply (@valid_rule_is_silent pureHost (js "01;/hevc/") (initial_page listing)).
  intros g [<-|[<-|[]]] _; discriminate.
Defined.

Lemma pipe_is_or_witness :
  exists ra rb rab,
    @processRow pureHost [js "hevc"] secondRow ready = (ready, inr ra)
    /\ @processRow pureHost [js "x265"] secondRow ready = (ready, inr rb)
    /\ @processRow pureHost [js "hevc" ++ Ch.pipe :: js "x265"] secondRow ready
       = (ready, inr rab)
    /\ visible rab = visible ra || visible rb.
Proof.
  exact (@pipe_is_or pureHost convertA convertB pure_convA pure_convB
           (js "hevc") (js "x265") secondRow ready ready_initialized
           eq_refl eq_refl eq_refl).
Defined.

Lemma rows_judged_independently_witness :
  exists r1 r2,
    @filterAll pureHost (js "hevc") (with_tbody [firstRow] (initial_page listing))
    = inr r1
    /\ @filterAll pureHost (js "hevc")
         (with_tbody [secondRow; thirdRow] (initial_page listing))
       = inr r2
    /\ @filterAll pureHost (js "hevc")
         (with_tbody ([firstRow] ++ [secondRow; thirdRow]) (initial_page listing))
       = inr (r1 ++ r2).
Proof.
  exact (@rows_judged_independently pureHost convertA convertB
           pure_convA pure_convB (js "hevc") [firstRow] [secondRow; thirdRow]
           (initial_page listing) (start_cache_ok listing)).
Defined.

Lemma invalid_regex_warned_per_row_witness :
  console (fst (@filterTitles pureHost (js "/[abc/") (initial_page listing)))
  = [js "/[abc/"; js "/[abc/"; js "/[abc/"].
Proof.
  apply (@invalid_regex_warned_per_row pureHost convertA convertB
           pure_convA pure_convB (js "/[abc/") (js "/[abc/")
           (initial_page listing) (start_cache_ok listing)
           eq_refl eq_refl eq_refl).
Defined.

End StandInFactsMore.
